(** * pyfda_fix_lib: fixpoint quantisation and number-format conversion

    A shallow embedding of [pyfda/pyfda_fix_lib.py] (class [Fixed] and the
    helper functions [bin2hex], [dec2hex], [dec2csd], [csd2dec]).

    Numeric model.  The Python code computes with IEEE doubles.  Here a
    number is an exact rational ([Q]); [2. ** n] is the exact power of two.
    On the dyadic values the library is used with (multiples of [LSB] with
    fewer than 53 significant bits) double arithmetic is exact and agrees
    with this model; NaN, infinities and rounding errors of very long
    mantissas are outside the model. *)

From Stdlib Require Import ZArith QArith Qround Qabs Qpower Lia Lqa List Ascii String Bool.
From stdpp Require Import gmap strings.

Import ListNotations.
Local Open Scope Z_scope.
Local Open Scope string_scope.

(** ** Numeric helpers: the numpy functions the module calls *)

Module Np.

Definition ltb (x y : Q) : bool := negb (Qle_bool y x).
Definition leb (x y : Q) : bool := Qle_bool x y.
Definition geb (x y : Q) : bool := Qle_bool y x.
Definition gtb (x y : Q) : bool := negb (Qle_bool x y).

(** [np.floor], [np.ceil] *)
Definition floor (x : Q) : Q := inject_Z (Qfloor x).
Definition ceil (x : Q) : Q := inject_Z (Qceiling x).

(** [np.fix]: round towards zero. *)
Definition fix_ (x : Q) : Q :=
  if Qle_bool 0 x then floor x else ceil x.

(** [np.round] and [np.rint]: round to nearest, ties to the even integer. *)
Definition rint_z (x : Q) : Z :=
  let f := Qfloor x in
  let d := (x - inject_Z f)%Q in
  match (d ?= 1 # 2)%Q with
  | Lt => f
  | Gt => f + 1
  | Eq => if Z.even f then f else f + 1
  end.
Definition rint (x : Q) : Q := inject_Z (rint_z x).
Definition round (x : Q) : Q := rint x.


(** [np.sign] *)
Definition sign (x : Q) : Q :=
  match (x ?= 0)%Q with
  | Lt => inject_Z (-1)
  | Eq => 0%Q
  | Gt => 1%Q
  end.

(** [2. ** n] for an integer [n]. *)
Definition pow2 (n : Z) : Q := Qpower (inject_Z 2) n.

(** [np.sum] of a boolean vector. *)
Definition sum (l : list bool) : Z :=
  fold_right (fun (b : bool) acc => (if b then 1 else 0) + acc) 0 l.

(** [b.astype(int)] *)
Definition as_int (b : bool) : Z := if b then 1 else 0.

End Np.

(** ** The Python string operations the module calls *)

Module Py.

Local Open Scope list_scope.

Definition chars (s : string) : list ascii := list_ascii_of_string s.
Definition str (l : list ascii) : string := string_of_list_ascii l.

Definition ch_eqb (a b : ascii) : bool := Ascii.eqb a b.

(** [c in "..."] *)
Definition one_of (set : string) (c : ascii) : bool :=
  existsb (ch_eqb c) (chars set).

(** [re.sub('[^...]', '', s)]: keep the characters of the class. *)
Definition keep (allowed : ascii -> bool) (s : string) : string :=
  str (List.filter allowed (chars s)).

(** [s.replace(a, b)] for one-character [a]. *)
Definition replace (a : ascii) (b : string) (s : string) : string :=
  str (flat_map (fun c => if ch_eqb c a then chars b else [c]) (chars s)).

(** [s.split(sep)] for one-character [sep]: always at least one part. *)
Fixpoint split_chars (sep : ascii) (l : list ascii) : list (list ascii) :=
  match l with
  | [] => [[]]
  | c :: tl =>
      if ch_eqb c sep then [] :: split_chars sep tl
      else match split_chars sep tl with
           | [] => [[c]]
           | p :: ps => (c :: p) :: ps
           end
  end.
Definition split (sep : ascii) (s : string) : list string :=
  map str (split_chars sep (chars s)).

(** [s.lower()] on ASCII letters. *)
Definition lower_ch (c : ascii) : ascii :=
  let n := nat_of_ascii c in
  if (65 <=? n)%nat && (n <=? 90)%nat then ascii_of_nat (n + 32) else c.
Definition lower (s : string) : string := str (map lower_ch (chars s)).

(** [s.strip("0")]: both ends. *)
Fixpoint lstrip (c : ascii) (l : list ascii) : list ascii :=
  match l with
  | [] => []
  | x :: tl => if ch_eqb x c then lstrip c tl else l
  end.
Definition strip (c : ascii) (s : string) : string :=
  str (rev (lstrip c (rev (lstrip c (chars s))))).

Definition len (s : string) : Z := Z.of_nat (String.length s).


(** Value of a digit character in a base up to 16. *)
Definition digit_val (b : Z) (c : ascii) : option Z :=
  let n := Z.of_nat (nat_of_ascii c) in
  let v := (if (48 <=? n) && (n <=? 57) then n - 48
            else if (65 <=? n) && (n <=? 70) then n - 55
            else if (97 <=? n) && (n <=? 102) then n - 87
            else 16)%Z in
  if (v <? b)%Z then Some v else None.

(** One or more digits of the base, most significant first. *)
Fixpoint digits_val (b : Z) (acc : Z) (l : list ascii) : option Z :=
  match l with
  | [] => Some acc
  | c :: tl =>
      match digit_val b c with
      | Some d => digits_val b (acc * b + d) tl
      | None => None
      end
  end.
Definition number (b : Z) (l : list ascii) : option Z :=
  match l with [] => None | _ => digits_val b 0 l end.

(** Sign prefix of a literal. *)
Definition take_sign (l : list ascii) : Z * list ascii :=
  match l with
  | "-"%char :: tl => (-1, tl)
  | "+"%char :: tl => (1, tl)
  | _ => (1, l)
  end.

(** [int(s, base)] for the bases the module uses (0, 2, 10, 16), on
    literals without blanks and underscores: a sign, the base prefix
    where Python allows it, and digits.  [None] is [ValueError]. *)
Definition int_base (s : string) (b : Z) : option Z :=
  let '(sg, l) := take_sign (chars s) in
  let body :=
    match b, l with
    | 16, "0"%char :: x :: tl =>
        if one_of "xX" x then number 16 tl else number 16 l
    | 2, "0"%char :: x :: tl =>
        if one_of "bB" x then number 2 tl else number 2 l
    | 0, "0"%char :: x :: tl =>
        if one_of "xX" x then number 16 tl
        else if one_of "oO" x then number 8 tl
        else if one_of "bB" x then number 2 tl
        else match number 10 l with Some 0 => Some 0 | _ => None end
    | 0, _ => number 10 l
    | _, _ => number b l
    end in
  option_map (Z.mul sg) body.

(** *** Printing integers *)

Definition digit_char (d : Z) : ascii :=
  if (d <? 10)%Z then ascii_of_nat (Z.to_nat (48 + d))
  else ascii_of_nat (Z.to_nat (55 + d)).

(** Digits of [n >= 0] in base [b], most significant first; upper-case
    letters above 9. *)
Fixpoint digits_of (b : Z) (fuel : nat) (n : Z) (acc : list ascii) : list ascii :=
  match fuel with
  | O => acc
  | S f =>
      let acc' := digit_char (n mod b) :: acc in
      if (n / b =? 0)%Z then acc' else digits_of b f (n / b) acc'
  end.
Definition nat_digits (b : Z) (n : Z) : list ascii :=
  digits_of b (S (Z.to_nat (Z.log2 n))) n [].

(** [str(n)], [bin(n)[2:]] and ["{0:X}".format(n)] for an integer. *)
Definition int_digits (b : Z) (n : Z) : string :=
  if (n <? 0)%Z then String "-"%char (str (nat_digits b (- n)))
  else str (nat_digits b n).
Definition str_int (n : Z) : string := int_digits 10 n.
Definition format_X (n : Z) : string := int_digits 16 n.

Definition repeat_ch (c : ascii) (n : Z) : list ascii := repeat c (Z.to_nat n).



(** *** Reading decimal literals *)

Definition is_digit (c : ascii) : bool :=
  let n := nat_of_ascii c in (48 <=? n)%nat && (n <=? 57)%nat.

Fixpoint span_digits (l : list ascii) : list ascii * list ascii :=
  match l with
  | c :: tl =>
      if is_digit c then let '(d, r) := span_digits tl in (c :: d, r)
      else ([], l)
  | [] => ([], [])
  end.

Definition digits_or_zero (l : list ascii) : Z :=
  match digits_val 10 0 l with Some n => n | None => 0 end.

(** Power of ten with an integer exponent. *)
Definition pow10 (e : Z) : Q := Qpower (inject_Z 10) e.

(** The exponent part [e[+-]dd] of a literal, consumed only when it is
    complete. *)
Definition read_exponent (l : list ascii) : Z * list ascii :=
  match l with
  | c :: tl =>
      if one_of "eE" c then
        let '(sg, tl') := take_sign tl in
        match span_digits tl' with
        | ([], _) => (0, l)
        | (d, r) => (sg * digits_or_zero d, r)
        end
      else (0, l)
  | [] => (0, l)
  end.

(** The longest prefix that is a decimal floating literal (C [strtod]
    as [float()] and [complex()] use it), with the unread rest. *)
Definition strtod (l : list ascii) : option (Q * list ascii) :=
  let '(sg, l1) := take_sign l in
  let '(di, l2) := span_digits l1 in
  let '(df, l3) :=
    match l2 with
    | "."%char :: tl => span_digits tl
    | _ => ([], l2)
    end in
  match (di ++ df)%list with
  | [] => None
  | ds =>
      let '(e, l4) := read_exponent l3 in
      Some ((inject_Z (sg * digits_or_zero ds)
             * pow10 (e - Z.of_nat (List.length df)))%Q, l4)
  end.

(** [float(s)]: blanks around the literal are skipped; [None] is
    [ValueError].  The words [inf] and [nan] have no rational value and
    are not read. *)
Definition float (s : string) : option Q :=
  match strtod (rev (lstrip " "%char (rev (lstrip " "%char (chars s))))) with
  | Some (q, []) => Some q
  | _ => None
  end.

(** [complex(s)] on a literal without blanks, as CPython reads it:
    an optional pair of parentheses around [x], [x+yj], [yj] or a
    signed [j]. *)
Definition is_j (c : ascii) : bool := one_of "jJ" c.

Definition complex_body (l : list ascii) : option (Q * Q * list ascii) :=
  match strtod l with
  | Some (z, r) =>
      match r with
      | c :: tl =>
          if one_of "+-" c then
            match strtod r with
            | Some (y, j :: r') => if is_j j then Some (z, y, r') else None
            | Some (_, []) => None
            | None =>
                match tl with
                | j :: r' =>
                    if is_j j
                    then Some (z, if ch_eqb c "-"%char then inject_Z (-1) else 1%Q, r')
                    else None
                | [] => None
                end
            end
          else if is_j c then Some (0%Q, z, tl)
          else Some (z, 0%Q, r)
      | [] => Some (z, 0%Q, [])
      end
  | None =>
      let '(sg, r) := take_sign l in
      match r with
      | j :: r' => if is_j j then Some (0%Q, inject_Z sg, r') else None
      | [] => None
      end
  end.

Definition complex (s : string) : option (Q * Q) :=
  match chars s with
  | "("%char :: l =>
      match complex_body l with
      | Some (x, y, [")"%char]) => Some (x, y)
      | _ => None
      end
  | l =>
      match complex_body l with
      | Some (x, y, []) => Some (x, y)
      | _ => None
      end
  end.

(** *** Printing floats *)

(** Smallest [n >= 1] with [a * 10^n >= 1], for [0 < a < 1]. *)
Fixpoint lead_zeros (fuel : nat) (a : Q) (n : Z) : Z :=
  match fuel with
  | O => n
  | S f => if Qle_bool 1 (a * pow10 n) then n else lead_zeros f a (n + 1)
  end.

(** [floor(log10 a)] for [a > 0]. *)
Definition exp10 (a : Q) : Z :=
  if Qle_bool 1 a then Z.of_nat (List.length (nat_digits 10 (Qfloor a))) - 1
  else - lead_zeros (S (Pos.to_nat (Qden a))) a 1.

Definition rstrip0 (l : list ascii) : list ascii :=
  rev (lstrip "0"%char (rev l)).

Definition exp_digits (e : Z) : list ascii :=
  let d := nat_digits 10 (Z.abs e) in
  (if (e <? 0)%Z then "-"%char else "+"%char)
    :: (if (Z.abs e <? 10)%Z then "0"%char :: d else d).

(** [str(x)] of a float in Python 3 (the shortest text that reads back
    as [x]), computed as the exact decimal expansion rounded to 17
    digits; the two agree whenever the exact expansion has at most 15
    significant digits. *)
Definition str_float (x : Q) : string :=
  if Qeq_bool x 0 then "0.0"
  else
    let a := Qabs x in
    let e0 := exp10 a in
    let m0 := Qfloor (a * pow10 (16 - e0) + (1 # 2)) in
    let '(m, e) := if (10 ^ 17 <=? m0)%Z then (m0 / 10, e0 + 1) else (m0, e0) in
    let ds := rstrip0 (nat_digits 10 m) in
    let nd := Z.of_nat (List.length ds) in
    let decpt := e + 1 in
    let body :=
      if (decpt <=? -4)%Z || (16 <? decpt)%Z then
        match ds with
        | d :: [] => d :: "e"%char :: exp_digits e
        | d :: tl => (d :: "."%char :: tl) ++ "e"%char :: exp_digits e
        | [] => []
        end
      else if (decpt <=? 0)%Z then
        "0"%char :: "."%char :: repeat_ch "0"%char (- decpt) ++ ds
      else if (decpt <? nd)%Z then
        firstn (Z.to_nat decpt) ds ++ "."%char :: skipn (Z.to_nat decpt) ds
      else ds ++ repeat_ch "0"%char (decpt - nd) ++ chars ".0" in
    str (if Qle_bool 0 x then body else "-"%char :: body).

End Py.

(** ** Exceptions *)

Inductive outcome (A : Type) : Type :=
| Ok (a : A)
| Raise (msg : string).
Arguments Ok {A} a.
Arguments Raise {A} msg.

#[global] Instance outcome_ret : MRet outcome := fun _ a => Ok a.
#[global] Instance outcome_bind : MBind outcome :=
  fun _ _ f x => match x with Ok a => f a | Raise m => Raise m end.

(** ** The [Fixed] object *)

(** Values of a quantisation dict [q_obj]. *)
Inductive qval : Type :=
| VInt (z : Z)
| VNum (q : Q)
| VStr (s : string).

(** The instance attributes of [Fixed] that the module reads and writes.
    [places] (a digit count for display, computed with [log10] and read
    nowhere in the module) and [q_obj] (the dict itself) are not kept. *)
Record Fixed : Type := mkFixed {
  WI : Z;  WF : Z;  W : Z;
  quant : string;  ovfl : string;  frmt : string;
  scale : Q;
  LSB : Q;  MSB : Q;  MAX : Q;  MIN : Q;
  base : Z;
  ovr_flag : list Z;
  N_over : Z;  N_over_neg : Z;  N_over_pos : Z
}.

(** [scaling] argument of [fixp]; any string other than ['mult'] and
    ['div'] leaves the value unscaled. *)
Definition is_mult (scaling : string) : bool := String.eqb scaling "mult".
Definition is_div (scaling : string) : bool := String.eqb scaling "div".

(** The numeric input of [fixp]: a scalar or an array (flattened; the
    code works elementwise and keeps the shape).  Arrays of texts, which
    the code converts element by element, are not a case of the model. *)
Inductive numeric : Type :=
| Scalar (y : Q)
| Batch (ys : list Q).

Definition elems (y : numeric) : list Q :=
  match y with Scalar q => [q] | Batch l => l end.

Definition reshape (y : numeric) (l : list Q) : numeric :=
  match y with
  | Scalar _ => Scalar (hd 0%Q l)
  | Batch _ => Batch l
  end.

(** ** [Fixed.setQobj] *)

Module Config.

Definition known_keys : list string :=
  ["Q"; "WF"; "WI"; "quant"; "ovfl"; "frmt"; "scale"].

Definition q_obj_default : list (string * qval) :=
  [("WI", VInt 0); ("WF", VInt 15); ("quant", VStr "round");
   ("ovfl", VStr "sat"); ("frmt", VStr "float"); ("scale", VInt 1)].

(** [getattr(self, k)] for the keys of the default dict. *)
Definition getattr (self : Fixed) (k : string) : qval :=
  if String.eqb k "WI" then VInt (WI self)
  else if String.eqb k "WF" then VInt (WF self)
  else if String.eqb k "quant" then VStr (quant self)
  else if String.eqb k "ovfl" then VStr (ovfl self)
  else if String.eqb k "frmt" then VStr (frmt self)
  else VNum (scale self).

(** Lines 402-407: a missing key is taken from the instance when it has
    attributes already ([prev]), from the default dict otherwise. *)
Definition complete (prev : option Fixed) (q_obj : gmap string qval)
  : gmap string qval :=
  fold_left
    (fun (m : gmap string qval) (kv : string * qval) =>
       match m !! fst kv with
       | Some _ => m
       | None =>
           <[fst kv := match prev with
                       | None => snd kv
                       | Some self => getattr self (fst kv)
                       end]> m
       end)
    q_obj_default q_obj.

(** [int(v)], [abs(v)], [str(v)] and [np.float64(v)] of a dict value. *)
Definition py_int (v : qval) : outcome Z :=
  match v with
  | VInt z => Ok z
  | VNum q => Ok (if Qle_bool 0 q then Qfloor q else Qceiling q)
  | VStr s =>
      match Py.int_base s 10 with
      | Some z => Ok z
      | None => Raise "ValueError"
      end
  end.

Definition py_abs (v : qval) : outcome qval :=
  match v with
  | VInt z => Ok (VInt (Z.abs z))
  | VNum q => Ok (VNum (Qabs q))
  | VStr _ => Raise "TypeError"
  end.

Definition py_str (v : qval) : string :=
  match v with
  | VInt z => Py.str_int z
  | VNum q => Py.str_float q
  | VStr s => s
  end.

Definition np_float64 (v : qval) : outcome Q :=
  match v with
  | VInt z => Ok (inject_Z z)
  | VNum q => Ok q
  | VStr s =>
      match Py.float s with
      | Some q => Ok q
      | None => Raise "ValueError"
      end
  end.

(** [s.split('.', 1)] *)
Fixpoint split1 (l acc : list ascii) : list string :=
  match l with
  | [] => [Py.str (rev acc)]
  | c :: tl =>
      if Py.ch_eqb c "."%char then [Py.str (rev acc); Py.str tl]
      else split1 tl (c :: acc)
  end.

(** Lines 410-415: the key ['Q'] overrides ['WI'] and ['WF'] and is
    deleted. *)
Definition apply_Q (q_obj : gmap string qval) : outcome (gmap string qval) :=
  match q_obj !! "Q" with
  | None => Ok q_obj
  | Some q =>
      match split1 (Py.chars (py_str q)) [] with
      | [i; f] =>
          wi ← py_int (VStr i);
          wf ← py_int (VStr f);
          Ok (delete "Q" (<["WF" := VInt (Z.abs wf)]> (<["WI" := VInt wi]> q_obj)))
      | [i] => _ ← py_int (VStr i); Raise "IndexError"
      | _ => Raise "IndexError"
      end
  end.

Definition item (q_obj : gmap string qval) (k : string) : outcome qval :=
  match q_obj !! k with
  | Some v => Ok v
  | None => Raise "KeyError"
  end.

(** Lines 436-452: the numeric base of the format.  For ['dec'] the
    code takes [log10] of [W] for [places]: the result is infinite for
    [W = 0] and undefined for [W < 0], and [int] raises. *)
Definition base_of (frmt : string) (W : Z) : outcome Z :=
  if String.eqb frmt "dec" then
    if (W =? 0)%Z then Raise "OverflowError"
    else if (W <? 0)%Z then Raise "ValueError"
    else Ok 10
  else if String.eqb frmt "bin" then Ok 2
  else if String.eqb frmt "csd" then Ok 2
  else if String.eqb frmt "hex" then Ok 16
  else if String.eqb frmt "float" then Ok 0
  else Raise ("Unknown format " ++ frmt).

(** A method body: it may raise, and it leaves the object in the state
    reached so far. *)
Definition method (A : Type) : Type := Fixed -> outcome A * Fixed.

#[global] Instance method_ret : MRet method := fun _ a self => (Ok a, self).
#[global] Instance method_bind : MBind method :=
  fun _ _ f x self =>
    match x self with
    | (Ok a, self') => f a self'
    | (Raise m, self') => (Raise m, self')
    end.

(** An expression that may raise. *)
Definition eval {A : Type} (o : outcome A) : method A := fun self => (o, self).
(** Assignments to attributes. *)
Definition assign (f : Fixed -> Fixed) : method unit := fun self => (Ok tt, f self).

Definition set_WI (wi : Z) (self : Fixed) : Fixed :=
  mkFixed wi (WF self) (W self) (quant self) (ovfl self) (frmt self)
          (scale self) (LSB self) (MSB self) (MAX self) (MIN self) (base self)
          (ovr_flag self) (N_over self) (N_over_neg self) (N_over_pos self).

(** Lines 419-423 *)
Definition set_WF_modes (wf : Z) (qu ov fr : string) (self : Fixed) : Fixed :=
  mkFixed (WI self) wf (wf + WI self + 1) qu ov fr
          (scale self) (LSB self) (MSB self) (MAX self) (MIN self) (base self)
          (ovr_flag self) (N_over self) (N_over_neg self) (N_over_pos self).

(** Lines 424-432 *)
Definition set_scale_bounds (sc : Q) (self : Fixed) : Fixed :=
  let lsb := Np.pow2 (- WF self) in
  let msb := Np.pow2 (WI self - 1) in
  mkFixed (WI self) (WF self) (W self) (quant self) (ovfl self) (frmt self)
          sc lsb msb (2 * msb - lsb)%Q (- (2) * msb)%Q (base self)
          (ovr_flag self) (N_over self) (N_over_neg self) (N_over_pos self).

(** Lines 436-454 *)
Definition set_base_flag (b : Z) (self : Fixed) : Fixed :=
  mkFixed (WI self) (WF self) (W self) (quant self) (ovfl self) (frmt self)
          (scale self) (LSB self) (MSB self) (MAX self) (MIN self) b
          [0] (N_over self) (N_over_neg self) (N_over_pos self).

(** [Fixed.setQobj(q_obj)].  [has_attrs] tells whether the instance has
    its attributes already (it has not inside [__init__]).  The result
    is the dict as the call leaves it; an exception leaves the attributes
    assigned before it. *)
Definition setQobj (has_attrs : bool) (q_obj : gmap string qval)
  : method (gmap string qval) :=
  fun self =>
    (if forallb (fun k => existsb (String.eqb k) known_keys)
                (map fst (map_to_list q_obj))
     then
       q1 ← eval (apply_Q (complete (if has_attrs then Some self else None) q_obj));
       wi_v ← eval (item q1 "WI");
       wi ← eval (py_int wi_v);
       _ ← assign (set_WI wi);
       wf_v ← eval (item q1 "WF");
       wf_a ← eval (py_abs wf_v);
       wf ← eval (py_int wf_a);
       qu ← eval (item q1 "quant");
       ov ← eval (item q1 "ovfl");
       fr ← eval (item q1 "frmt");
       _ ← assign (set_WF_modes wf (Py.lower (py_str qu)) (Py.lower (py_str ov))
                                (Py.lower (py_str fr)));
       sc_v ← eval (item q1 "scale");
       sc ← eval (np_float64 sc_v);
       _ ← assign (set_scale_bounds sc);
       b ← eval (base_of (Py.lower (py_str fr)) (wf + wi + 1));
       _ ← assign (set_base_flag b);
       mret q1
     else eval (Raise "Unknown Key")) self.

End Config.

Module Quantizer.

(** Lines 559-561: [y = y / self.LSB], times [self.scale] for ['mult']. *)
Definition prescale (self : Fixed) (scaling : string) (y : Q) : Q :=
  let y1 := (y / LSB self)%Q in
  if is_mult scaling then (y1 * scale self)%Q else y1.

(** Lines 563-576: the rounding function of the mode [quant]; the mode is
    tested once for the whole argument. *)
Definition requant_mode (self : Fixed) : outcome (Q -> Q) :=
  if String.eqb (quant self) "floor" then Ok Np.floor
  else if String.eqb (quant self) "round" then Ok Np.round
  else if String.eqb (quant self) "fix" then Ok Np.fix_
  else if String.eqb (quant self) "ceil" then Ok Np.ceil
  else if String.eqb (quant self) "rint" then Ok Np.rint
  else if String.eqb (quant self) "none" then Ok (fun y => y)
  else Raise ("Unknown Requantization type " ++ quant self).

(** Requantise a whole array. *)
Definition requant_all (self : Fixed) (ys : list Q) : outcome (list Q) :=
  match requant_mode self with
  | Ok f => Ok (map f ys)
  | Raise m => Raise m
  end.

(** Lines 588-589: the overflow tests on a requantised element. *)
Definition over_neg (self : Fixed) (yq : Q) : bool := Np.ltb yq (MIN self).
Definition over_pos (self : Fixed) (yq : Q) : bool := Np.geb yq (MAX self).

(** Lines 599-600: the two [np.where] of saturation, in their order. *)
Definition saturate (self : Fixed) (yq : Q) : Q :=
  let y1 := if over_pos self yq then MAX self else yq in
  if over_neg self yq then MIN self else y1.

(** Lines 603-604: two's complement wrap-around. *)
Definition wrap_formula (self : Fixed) (yq : Q) : Q :=
  (yq - 4 * MSB self
        * Np.fix_ ((Np.sign yq * 2 * MSB self + yq) / (4 * MSB self)))%Q.

Definition wrap (self : Fixed) (yq : Q) : Q :=
  if over_pos self yq || over_neg self yq then wrap_formula self yq else yq.

(** Line 610 *)
Definition postscale (self : Fixed) (scaling : string) (yq : Q) : Q :=
  if is_div scaling then (yq / scale self)%Q else yq.

Definition set_flags (self : Fixed) (flags : list Z) : Fixed :=
  mkFixed (WI self) (WF self) (W self) (quant self) (ovfl self) (frmt self)
          (scale self) (LSB self) (MSB self) (MAX self) (MIN self)
          (base self)
          flags (N_over self) (N_over_neg self) (N_over_pos self).

(** Lines 591-595: flags and counters after one call. *)
Definition count_overflows (self : Fixed) (yq : list Q) : Fixed :=
  let neg := map (over_neg self) yq in
  let pos := map (over_pos self) yq in
  let n_neg := N_over_neg self + Np.sum neg in
  let n_pos := N_over_pos self + Np.sum pos in
  mkFixed (WI self) (WF self) (W self) (quant self) (ovfl self) (frmt self)
          (scale self) (LSB self) (MSB self) (MAX self) (MIN self)
          (base self)
          (map (fun q => Np.as_int (over_pos self q) - Np.as_int (over_neg self q)) yq)
          (n_neg + n_pos) n_neg n_pos.

(** [Fixed.fixp] on numeric input (lines 503-615 after input coercion).
    The result carries the object as the call leaves it: an exception
    raised for an unknown overflow mode comes after the counters were
    updated. *)
Definition fixp_num (self : Fixed) (y : numeric) (scaling : string)
  : outcome numeric * Fixed :=
  let self0 := set_flags self (map (fun _ => 0) (elems y)) in
  match requant_all self0 (map (prescale self0 scaling) (elems y)) with
  | Raise m => (Raise m, self0)
  | Ok qs =>
      let yq := map (fun q => (q * LSB self0)%Q) qs in
      if String.eqb (ovfl self0) "none" then
        (Ok (reshape y (map (postscale self0 scaling) yq)), self0)
      else
        let self1 := count_overflows self0 yq in
        if String.eqb (ovfl self0) "sat" then
          (Ok (reshape y (map (postscale self1 scaling) (map (saturate self1) yq))), self1)
        else if String.eqb (ovfl self0) "wrap" then
          (Ok (reshape y (map (postscale self1 scaling) (map (wrap self1) yq))), self1)
        else (Raise ("Unknown overflow type " ++ ovfl self0), self1)
  end.

(** [Fixed.resetN] *)
Definition resetN (self : Fixed) : Fixed :=
  mkFixed (WI self) (WF self) (W self) (quant self) (ovfl self) (frmt self)
          (scale self) (LSB self) (MSB self) (MAX self) (MIN self)
          (base self) (ovr_flag self) 0 0 0.

End Quantizer.

(** ** Module-level helpers: [bin2hex], [dec2hex], [dec2csd], [csd2dec] *)

(** Log records at warning level and above; debug output is not kept. *)
Inductive level : Type := WARNING | ERROR.
Definition log : Type := list (level * string).

Module BaseCodec.

Local Open Scope list_scope.

(** The table [wmap] of [bin2hex]; a group that is no key raises
    [KeyError]. *)
Definition wmap (g : list ascii) : option ascii :=
  match g with
  | [_; _; _; _] => option_map Py.digit_char (Py.digits_val 2 0 g)
  | _ => None
  end.

(** Lines 66-67: prepend zeros up to a multiple of four characters. *)
Definition pad4 (l : list ascii) : list ascii :=
  Py.repeat_ch "0"%char ((- Z.of_nat (List.length l)) mod 4) ++ l.

(** Lines 69-71: map the groups of four, left to right. *)
Fixpoint map_groups (fuel : nat) (l : list ascii) : outcome (list ascii) :=
  match fuel, l with
  | _, [] => Ok []
  | O, _ => Ok []
  | S f, _ =>
      match wmap (firstn 4 l) with
      | None => Raise "KeyError"
      | Some h =>
          match map_groups f (skipn 4 l) with
          | Ok hs => Ok (h :: hs)
          | Raise m => Raise m
          end
      end
  end.

(** [bin2hex(bin_str)] *)
Definition bin2hex (bin_str : string) : outcome string :=
  let l := pad4 (Py.chars bin_str) in
  match map_groups (List.length l) l with
  | Raise m => Raise m
  | Ok hs =>
      let h := Py.strip "0"%char (Py.str hs) in
      Ok (if (Py.len h =? 0)%Z then "0" else h)
  end.

(** [dec2hex(val, nbits)]; a negative shift count is a [ValueError].
    The cast to [np.int64] is the identity below 63 bits. *)
Definition dec2hex (val nbits : Z) : outcome string :=
  if (nbits <? 0)%Z then Raise "ValueError"
  else Ok (Py.format_X ((val + 2 ^ nbits) mod 2 ^ nbits)).

End BaseCodec.

Module CSD.

Local Open Scope list_scope.

(** [int(np.ceil(np.log2(x)))] for [x >= 1]: the least [k] with
    [x <= 2^k]. *)
Definition ceil_log2 (x : Q) : Z := Z.log2_up (Qceiling x).

(** Lines 141-170: the digit loop.  [fuel] counts the iterations left;
    the loop test [k >= -WF] is the one of the code. *)
Fixpoint csd_loop (fuel : nat) (WF k : Z) (remainder : Q) (prev_non_zero : bool)
  : list ascii :=
  match fuel with
  | O => []
  | S f =>
      if (- WF <=? k)%Z then
        let limit := (Np.pow2 (k + 1) / 3)%Q in
        let point := if (k =? -1)%Z then ["."%char] else [] in
        if prev_non_zero then
          point ++ "0"%char :: csd_loop f WF (k - 1) remainder false
        else if Np.gtb remainder limit then
          point ++ "+"%char :: csd_loop f WF (k - 1) (remainder - Np.pow2 k) true
        else if Np.ltb remainder (- limit) then
          point ++ "-"%char :: csd_loop f WF (k - 1) (remainder + Np.pow2 k) true
        else
          point ++ "0"%char :: csd_loop f WF (k - 1) remainder false
      else []
  end.

(** Lines 128-131: the exponent above the first digit. *)
Definition start_exp (dec_val : Q) : Z :=
  if Np.ltb (Qabs dec_val) 1 then 0
  else ceil_log2 (Qabs dec_val * (3 # 2)).

(** [dec2csd(dec_val, WF)] *)
Definition dec2csd (dec_val : Q) (WF : Z) : string :=
  if Qeq_bool dec_val 0 then "0"
  else
    let k := start_exp dec_val - 1 in
    let csd_digits := csd_loop (Z.to_nat (k + WF + 1)) WF k dec_val false in
    Py.str (if Np.ltb (Qabs dec_val) 1 then "0"%char :: csd_digits else csd_digits).

(** The character class ['[+-0 ]'] of line 228: the range from ['+'] to
    ['0'] and the blank. *)
Definition csd_legal (c : ascii) : bool :=
  let n := nat_of_ascii c in
  ((43 <=? n)%nat && (n <=? 48)%nat) || (n =? 32)%nat.

(** Lines 234-243: sum of the signed powers of two. *)
Fixpoint csd_sum (msb_power : Z) (ii : Z) (l : list ascii) (dec_val : Q) : Q :=
  match l with
  | [] => dec_val
  | c :: tl =>
      let power_of_two := Np.pow2 (msb_power - ii) in
      csd_sum msb_power (ii + 1) tl
        (if Py.ch_eqb c "+"%char then dec_val + power_of_two
         else if Py.ch_eqb c "-"%char then dec_val - power_of_two
         else dec_val)%Q
  end.

(** [csd2dec(csd_str, int_places)]: [None] is Python's [None], returned
    after a warning. *)
Definition csd2dec (csd_str : string) (int_places : Z) : option Q * log :=
  let '(int_str, csd_str') :=
    match Py.split "."%char csd_str with
    | [i; _] => (i, Py.replace "."%char EmptyString csd_str)
    | _ => (csd_str, csd_str)
    end in
  let msb_power := Py.len int_str - 1 in
  let illegal_chars := Py.keep (fun c => negb (csd_legal c)) csd_str' in
  if negb (Py.len illegal_chars =? 0)%Z then
    (None, [(WARNING, "Invalid character(s) " ++ illegal_chars ++ " for CSD string!")%string])
  else (Some (csd_sum msb_power 0 (Py.chars csd_str') 0%Q), []).

End CSD.

(** ** The methods [fixp], [frmt2float] and [float2frmt] *)

(** A scalar argument as the callers pass it: a number or a text
    ([None], which [fixp] treats as the empty text, is not a case of its
    own). *)
Inductive pyval : Type :=
| PNum (q : Q)
| PStr (s : string).

(** Modelled from the spec: [qstr] of [pyfda.pyfda_qt_lib], the
    stringify helper, "total function from any input value to a
    best-effort textual form": a text is returned as it is, a number as
    Python prints it. *)
Definition qstr (y : pyval) : string :=
  match y with
  | PStr s => s
  | PNum q => Py.str_float q
  end.

Module Fix.

Local Open Scope list_scope.

(** [np.real_if_close]: an imaginary part below [100] machine epsilons
    is dropped silently. *)
Definition negligible (im : Q) : bool :=
  Qle_bool (Qabs im) (100 * Np.pow2 (-52)).

(** Lines 530-555: coercion of a scalar argument of [fixp] to a real
    number. *)
Definition coerce (y : pyval) : Q * log :=
  match y with
  | PNum q => (q, [])
  | PStr s =>
      if String.eqb s EmptyString then (0%Q, [])
      else
        let s' := Py.replace " "%char EmptyString (qstr y) in
        match Py.float s' with
        | Some q => (q, [])
        | None =>
            match Py.complex s' with
            | Some (re, im) =>
                (re, if negligible im then []
                     else [(WARNING, "Casting complex values to real before quantization!")])
            | None => (0%Q, [(ERROR, "Argument " ++ s' ++ " cannot be converted")%string])
            end
        end
  end.

(** [Fixed.fixp(y, scaling)] for a scalar argument. *)
Definition fixp (self : Fixed) (y : pyval) (scaling : string)
  : outcome Q * Fixed * log :=
  let '(q, lg) := coerce y in
  match Quantizer.fixp_num self (Scalar q) scaling with
  | (Ok r, self') => (Ok (hd 0%Q (elems r)), self', lg)
  | (Raise m, self') => (Raise m, self', lg)
  end.

(** The classes of [FRMT_REGEX]: the characters that are kept.  Inside
    the brackets the bar is an ordinary character. *)
Definition frmt_legal (frmt : string) : option (ascii -> bool) :=
  if String.eqb frmt "bin" then Some (Py.one_of "0|1.,-")
  else if String.eqb frmt "csd" then Some (Py.one_of "0|+-.,")
  else if String.eqb frmt "dec" then Some (Py.one_of "0123456789|.,-")
  else if String.eqb frmt "hex" then Some (Py.one_of "0123456789ABCDEFabcdef|.,-")
  else None.

(** [x ** n] for integers, [None] when Python has no integer or float
    result ([0] to a negative power). *)
Definition int_pow (b n : Z) : option Q :=
  if (b =? 0)%Z && (n <? 0)%Z then None else Some (Qpower (inject_Z b) n).

(** Lines 753-758 *)
Definition or_fallback (data_old : option Q) (y_float : option Q) : Q :=
  match y_float, data_old with
  | Some v, _ => v
  | None, Some d => d
  | None, None => 0%Q
  end.

(** Lines 678-693: radix point handling of the cleaned text. *)
Definition split_places (val_str0 : string) : string * Z * Z * string :=
  let val_str1 := Py.replace ","%char "." val_str0 in
  let val_str :=
    match Py.chars val_str1 with
    | "."%char :: _ => ("0" ++ val_str1)%string
    | _ => val_str1
    end in
  let '(int_str, frc_str) :=
    match Py.split "."%char val_str with
    | [i; f] => (i, f)
    | _ => (val_str, EmptyString)
    end in
  (val_str, Py.len int_str - 1, Py.len frc_str,
   Py.replace "."%char EmptyString val_str).

(** Lines 723-736: the ['hex'] / ['bin'] branch up to the call of
    [fixp]; [None] stands for an exception caught by the [except]
    clause.  The logging statement of line 728 shifts [1] by
    [ceil(log2(y_dec))], which fails for [y_dec <= 1/2]. *)
Definition twos_complement_value (b : Z) (raw_str : string)
                                 (int_places frc_places : Z) : option Q * log :=
  match Py.int_base raw_str b, int_pow b frc_places with
  | Some n, Some d =>
      if Qeq_bool d 0 then (None, [(WARNING, "ZeroDivisionError")])
      else
        let y_dec := (inject_Z n / d)%Q in
        let lg := [(WARNING, "base - frc_places")] in
        match int_pow b int_places with
        | Some thr =>
            if Np.geb y_dec thr then
              if Qle_bool y_dec (1 # 2) then (None, lg ++ [(WARNING, "OverflowError")])
              else (Some (y_dec - 2 * thr)%Q, lg ++ [(WARNING, "2sComp")])
            else (Some y_dec, lg)
        | None => (None, lg ++ [(WARNING, "ZeroDivisionError")])
        end
  | _, _ => (None, [(WARNING, "ValueError")])
  end.

(** Lines 656-758 of [frmt2float]: the conversion of an argument that is
    not the empty text. *)
Definition frmt2float_convert (self : Fixed) (data_old : option Q) (y : pyval)
                              (frmt_arg : option string)
  : outcome (option Q) * Fixed * log :=
  let frmt := Py.lower (match frmt_arg with None => frmt self | Some f => f end) in
  if String.eqb frmt "float" then
    match y with
    | PNum q => (Ok (Some q), self, [])
    | PStr s =>
        match Py.float s with
        | Some q => (Ok (Some q), self, [])
        | None =>
            match Py.complex s with
            | Some (re, _) => (Ok (Some re), self, [])
            | None => (Ok None, self, [(WARNING, "Can't convert " ++ s)%string])
            end
        end
    end
  else
    match frmt_legal frmt with
    | None => (Raise "KeyError", self, [])
    | Some legal =>
        let val_str0 := Py.keep legal (qstr y) in
        if (Py.len val_str0 =? 0)%Z then
          (Ok (Some (or_fallback data_old None)), self,
           [(WARNING, "No valid characters for format " ++ frmt)%string])
        else
          let '(val_str, int_places, frc_places, raw_str) := split_places val_str0 in
          if String.eqb frmt "dec" then
            match fixp self (PStr val_str) "div" with
            | (Ok q, self', lg) => (Ok (Some (or_fallback data_old (Some q))), self', lg)
            | (Raise m, self', lg) =>
                (Ok (Some (or_fallback data_old None)), self', lg ++ [(WARNING, m)])
            end
          else if String.eqb frmt "hex" || String.eqb frmt "bin" then
            match twos_complement_value (base self) raw_str int_places frc_places with
            | (Some y_dec, lg) =>
                match fixp self (PNum y_dec) "div" with
                | (Ok q, self', lg') =>
                    (Ok (Some (or_fallback data_old (Some q))), self', lg ++ lg')
                | (Raise m, self', lg') =>
                    (Ok (Some (or_fallback data_old None)), self',
                     lg ++ lg' ++ [(WARNING, m)])
                end
            | (None, lg) => (Ok (Some (or_fallback data_old None)), self, lg)
            end
          else
            let '(r, lg) := CSD.csd2dec raw_str int_places in
            let y_float := option_map (fun v => (v / Np.pow2 (W self - 1))%Q) r in
            (Ok (Some (or_fallback data_old y_float)), self, lg)
    end.

(** [Fixed.frmt2float(y, frmt)].  [data_old] is [fb.data_old], the last
    good value kept by the filter broker.  The result [None] is
    Python's [None]. *)
Definition frmt2float (self : Fixed) (data_old : option Q) (y : pyval)
                      (frmt_arg : option string)
  : outcome (option Q) * Fixed * log :=
  match y with
  | PStr EmptyString => (Ok (Some 0%Q), self, [])
  | _ => frmt2float_convert self data_old y frmt_arg
  end.


(** An instance before [__init__] has given it attributes. *)
Definition blank : Fixed :=
  mkFixed 0 0 0 EmptyString EmptyString EmptyString 0 0 0 0 0 0 [] 0 0 0.

(** [Fixed.__init__(q_obj)]: [setQobj], then [resetN]; no object is built
    when [setQobj] raises. *)
Definition init (q_obj : gmap string qval) : outcome Fixed :=
  match Config.setQobj false q_obj blank with
  | (Ok _, self) => Ok (Quantizer.resetN self)
  | (Raise m, _) => Raise m
  end.

End Fix.

(** ** Notions used in the statements *)

(** [returns r v]: the call ended normally with a value equal to [v]. *)
Definition returns (r : outcome Q * Fixed * log) (v : Q) : Prop :=
  exists q self' lg, r = (Ok q, self', lg) /\ (q == v)%Q.

(** The configuration of the docstring of [fixp]:
    [{'WI':1, 'WF':6, 'ovfl':'sat', 'quant':'round'}]. *)
Definition q_obj_a : gmap string qval :=
  <["WI" := VInt 1]> (<["WF" := VInt 6]> (<["ovfl" := VStr "sat"]>
    (<["quant" := VStr "round"]> ∅))).




(** The requantised values [yq] of a batch, before overflow handling
    (line 579). *)
Definition quantized (self : Fixed) (scaling : string) (ys : list Q)
  : outcome (list Q) :=
  match Quantizer.requant_all self (map (Quantizer.prescale self scaling) ys) with
  | Ok qs => Ok (map (fun q => (q * LSB self)%Q) qs)
  | Raise m => Raise m
  end.

(** The object [Fixed(q_obj_a)], a batch and its quantised values. *)
Definition fixed_a : Fixed :=
  mkFixed 1 6 8 "round" "sat" "float" 1 (1 # 64) 1 (127 # 64) (- (2)) 0 [0] 0 0 0.


(** The digit symbols of a CSD text, radix point removed. *)
Definition nodot (c : ascii) : bool := negb (Py.ch_eqb c "."%char).
Definition csd_symbols (s : string) : list ascii :=
  List.filter nodot (Py.chars s).

(** The first symbol, if any, is ['0'] whenever [after_nonzero] holds. *)
Definition starts_zero (after_nonzero : bool) (l : list ascii) : Prop :=
  match l with
  | [] => True
  | c :: _ => after_nonzero = true -> c = "0"%char
  end.

Definition nonzero_symbol (c : ascii) : bool := negb (Py.ch_eqb c "0"%char).

(** No two neighbouring symbols are both different from ['0']. *)
Fixpoint nonadjacent (l : list ascii) : bool :=
  match l with
  | a :: (b :: _) as tl => negb (nonzero_symbol a && nonzero_symbol b) && nonadjacent tl
  | _ => true
  end.




(** Whether the character class of a format keeps a character. *)
Definition legal_char (fmt : string) (c : ascii) : bool :=
  match Fix.frmt_legal fmt with
  | Some legal => legal c
  | None => false
  end.



Definition fixed_bin : Fixed :=
  mkFixed 1 6 8 "round" "sat" "bin" 1 (1 # 64) 1 (127 # 64) (- (2)) 2 [0] 0 0 0.

(** The value a call returned, if it returned one. *)
Definition value_of {A : Type} (r : outcome A * Fixed * log) : outcome A := fst (fst r).
Definition object_of {A : Type} (r : outcome A * Fixed * log) : Fixed := snd (fst r).

(** The object [Fixed(q_obj_dec)]. *)
Definition fixed_dec : Fixed :=
  mkFixed 1 6 8 "round" "sat" "dec" 1 (1 # 64) 1 (127 # 64) (- (2)) 10 [0] 0 0 0.

(** The wrap-around formula on integers: with [yq = k LSB] and
    [2 MSB = D LSB] the wrapped value is [wrap_int D k] times [LSB]. *)
Definition wrap_int (D k : Z) : Z :=
  k - 2 * D * Z.quot (Z.sgn k * D + k) (2 * D).

(** The derived attributes as [setQobj] computes them (lines 418-432). *)
Definition derived (self : Fixed) : Prop :=
  (0 <= WF self)%Z
  /\ W self = (WF self + WI self + 1)%Z
  /\ (LSB self == Np.pow2 (- WF self))%Q
  /\ (MSB self == Np.pow2 (WI self - 1))%Q
  /\ (MAX self == 2 * MSB self - LSB self)%Q
  /\ (MIN self == - (2) * MSB self)%Q.

(** An object whose attributes are as a returning [setQobj] leaves
    them. *)
Definition configured (self : Fixed) : Prop :=
  derived self /\ Config.base_of (frmt self) (W self) = Ok (base self).



(** The closed interval of representable values. *)
Definition in_range (self : Fixed) (x : Q) : Prop :=
  (MIN self <= x)%Q /\ (x <= MAX self)%Q.


(** A run of binary digits. *)
Definition binary (l : list ascii) : Prop :=
  forall c, In c l -> c = "0"%char \/ c = "1"%char.

(** The attributes of the configuration, without flags and counters. *)
Definition config_of (self : Fixed) :=
  (WI self, WF self, W self, quant self, ovfl self, frmt self, scale self,
   LSB self, MSB self, MAX self, MIN self, base self).

(** The modes that [fixp] knows. *)
Definition known_quant (self : Fixed) : Prop :=
  In (quant self) ["floor"; "round"; "fix"; "ceil"; "rint"; "none"].
Definition known_ovfl (self : Fixed) : Prop :=
  In (ovfl self) ["none"; "sat"; "wrap"].






(** A digit character of a base up to sixteen. *)
Definition digit_of (b : Z) (c : ascii) : Prop :=
  exists d, (0 <= d < b)%Z /\ c = Py.digit_char d.

(** The format [frmt2float] converts from: its argument, or the
    attribute of the object, in lower case (lines 656-658). *)
Definition format_of (self : Fixed) (frmt_arg : option string) : string :=
  Py.lower (match frmt_arg with None => frmt self | Some f => f end).

(** The four formats with a character class in [FRMT_REGEX]. *)
Definition text_format (fmt : string) : Prop :=
  In fmt ["dec"; "bin"; "hex"; "csd"].

(** The value [fixp] requantises: [y / LSB], times [scale] for
    ['mult'], rounded by [f] and scaled back (lines 559-579). *)
Definition requantized (self : Fixed) (scaling : string) (f : Q -> Q) (y : Q) : Q :=
  (f (Quantizer.prescale self scaling y) * LSB self)%Q.



(** The object after a scalar call that counted overflows at [yq]. *)
Definition counted (self : Fixed) (yq : Q) : Fixed :=
  Quantizer.count_overflows (Quantizer.set_flags self [0%Z]) [yq].

(** * Properties *)

(** ** Comparison and rounding facts *)

Section NpFacts.

Lemma ltb_lt (x y : Q) : Np.ltb x y = true <-> (x < y)%Q.
Proof.
  unfold Np.ltb. rewrite negb_true_iff. split; intros H.
  - apply Qnot_le_lt. intros Hle. apply Qle_bool_iff in Hle. congruence.
  - destruct (Qle_bool y x) eqn:E; [|reflexivity].
    apply Qle_bool_iff in E. exfalso. apply (Qlt_not_le _ _ H E).
Qed.

Lemma ltb_ge (x y : Q) : Np.ltb x y = false <-> (y <= x)%Q.
Proof.
  unfold Np.ltb. rewrite negb_false_iff. apply Qle_bool_iff.
Qed.

Lemma geb_ge (x y : Q) : Np.geb x y = true <-> (y <= x)%Q.
Proof. unfold Np.geb. apply Qle_bool_iff. Qed.

Lemma geb_lt (x y : Q) : Np.geb x y = false <-> (x < y)%Q.
Proof.
  unfold Np.geb. split; intros H.
  - apply Qnot_le_lt. intros Hle. apply Qle_bool_iff in Hle. congruence.
  - destruct (Qle_bool y x) eqn:E; [|reflexivity].
    apply Qle_bool_iff in E. exfalso. apply (Qlt_not_le _ _ H E).
Qed.

Lemma gtb_gt (x y : Q) : Np.gtb x y = true <-> (y < x)%Q.
Proof. unfold Np.gtb. apply (ltb_lt y x). Qed.

Lemma pow2_pos (n : Z) : (0 < Np.pow2 n)%Q.
Proof. unfold Np.pow2. apply Qpower_0_lt. reflexivity. Qed.

Lemma pow2_plus (n m : Z) : (Np.pow2 (n + m) == Np.pow2 n * Np.pow2 m)%Q.
Proof. unfold Np.pow2. apply Qpower_plus. discriminate. Qed.

Lemma pow2_nonneg_Z (n : Z) : (0 <= n)%Z -> (Np.pow2 n == inject_Z (2 ^ n))%Q.
Proof. intros H. unfold Np.pow2. symmetry. apply Zpower_Qpower. exact H. Qed.


End NpFacts.

(** C4: with [{WI:1, WF:6, ovfl:sat, quant:round}] the derived constants
    are [MSB = 1], [LSB = 1/64], [MAX = 1.984375], [MIN = -2], and [fixp]
    saturates: [fixp(2.5) = 1.984375], [fixp(-3) = -2]. *)
Theorem C4_saturation_constants :
  exists self,
    Fix.init q_obj_a = Ok self /\
    (MSB self == 1)%Q /\ (LSB self == 1 # 64)%Q /\
    (MAX self == 1984375 # 1000000)%Q /\ (MIN self == - (2))%Q /\
    returns (Fix.fixp self (PNum (25 # 10)) "mult") (1984375 # 1000000) /\
    returns (Fix.fixp self (PNum (- (3))) "mult") (- (2)).
Proof.
  eexists. split; [vm_compute; reflexivity|].
  repeat split; try reflexivity.
  - do 3 eexists. split; [vm_compute; reflexivity|reflexivity].
  - do 3 eexists. split; [vm_compute; reflexivity|reflexivity].
Qed.

(** ** Overflow counters *)

Lemma bind_eval_Ok {A B : Type} (o : outcome A) (f : A -> Config.method B)
      (self self' : Fixed) (b : B) :
  (Config.eval o ≫= f) self = (Ok b, self') ->
  exists a, o = Ok a /\ f a self = (Ok b, self').
Proof.
  unfold mbind, Config.method_bind, Config.eval.
  destruct o as [a|m]; intros H; [eauto|discriminate].
Qed.

Lemma bind_assign {B : Type} (g : Fixed -> Fixed) (f : unit -> Config.method B)
      (self : Fixed) :
  (Config.assign g ≫= f) self = f tt (g self).
Proof. reflexivity. Qed.





Lemma init_Ok q self :
  Fix.init q = Ok self ->
  exists q1 self0,
    Config.setQobj false q Fix.blank = (Ok q1, self0) /\ self = Quantizer.resetN self0.
Proof.
  unfold Fix.init. destruct (Config.setQobj false q Fix.blank) as [[q1|m] self0];
    [|discriminate].
  intros [= <-]. eauto.
Qed.


Lemma requant_all_flags self flags ys :
  Quantizer.requant_all (Quantizer.set_flags self flags) ys
  = Quantizer.requant_all self ys.
Proof. reflexivity. Qed.

Lemma prescale_flags self flags scaling ys :
  map (Quantizer.prescale (Quantizer.set_flags self flags) scaling) ys
  = map (Quantizer.prescale self scaling) ys.
Proof. reflexivity. Qed.



(** ** Wrap-around *)

Lemma fixp_num_wrap self y scaling yq :
  ovfl self = "wrap" ->
  quantized self scaling (elems y) = Ok yq ->
  fst (Quantizer.fixp_num self y scaling)
  = Ok (reshape y (map (Quantizer.postscale self scaling)
                       (map (Quantizer.wrap self) yq))).
Proof.
  intros Hov Hq. unfold quantized in Hq. unfold Quantizer.fixp_num.
  rewrite requant_all_flags, prescale_flags.
  destruct (Quantizer.requant_all self _) as [qs|m]; [|discriminate].
  injection Hq as <-.
  change (ovfl (Quantizer.set_flags self _)) with (ovfl self).
  rewrite Hov. reflexivity.
Qed.

Lemma fixp_num_sat self y scaling yq :
  ovfl self = "sat" ->
  quantized self scaling (elems y) = Ok yq ->
  fst (Quantizer.fixp_num self y scaling)
  = Ok (reshape y (map (Quantizer.postscale self scaling)
                       (map (Quantizer.saturate self) yq))).
Proof.
  intros Hov Hq. unfold quantized in Hq. unfold Quantizer.fixp_num.
  rewrite requant_all_flags, prescale_flags.
  destruct (Quantizer.requant_all self _) as [qs|m]; [|discriminate].
  injection Hq as <-.
  change (ovfl (Quantizer.set_flags self _)) with (ovfl self).
  rewrite Hov. reflexivity.
Qed.




(** ** Empty input of [frmt2float] *)

(** C10: [frmt2float] of the empty text returns [0] at once, for every
    format of the object and of the call, logs nothing and does not read
    the fallback value [data_old], present or not. *)
Theorem C10_empty_string (self : Fixed) (data_old : option Q)
                         (frmt_arg : option string) :
  Fix.frmt2float self data_old (PStr EmptyString) frmt_arg
  = (Ok (Some 0%Q), self, []).
Proof. reflexivity. Qed.

(** ** Canonical signed digits *)

Section CsdFacts.

Lemma nonadjacent_cons (c : ascii) (l : list ascii) :
  nonadjacent l = true ->
  starts_zero (nonzero_symbol c) l ->
  nonadjacent (c :: l) = true.
Proof.
  destruct l as [|b l]; [reflexivity|].
  intros Hl Hs. cbn [starts_zero] in Hs.
  change (negb (nonzero_symbol c && nonzero_symbol b) && nonadjacent (b :: l) = true).
  rewrite Hl, andb_true_r.
  destruct (nonzero_symbol c) eqn:Ec; [|reflexivity].
  rewrite (Hs eq_refl). reflexivity.
Qed.

Lemma filter_point (k : Z) (d : ascii) (l : list ascii) :
  nodot d = true ->
  List.filter nodot ((if (k =? -1)%Z then ["."%char] else []) ++ d :: l)
  = d :: List.filter nodot l.
Proof.
  intros Hd. destruct (k =? -1)%Z; cbn [app List.filter]; [cbn|]; rewrite Hd; reflexivity.
Qed.

(** The loop never emits a non-zero digit right after a non-zero digit. *)
Lemma csd_loop_nonadjacent (fuel : nat) :
  forall (WF k : Z) (remainder : Q) (prev_non_zero : bool),
    let l := List.filter nodot (CSD.csd_loop fuel WF k remainder prev_non_zero) in
    nonadjacent l = true /\ starts_zero prev_non_zero l.
Proof.
  induction fuel as [|fuel IH]; intros WF k r prev; cbn zeta.
  - split; [reflexivity|exact I].
  - cbn [CSD.csd_loop]. destruct (- WF <=? k)%Z; [|split; [reflexivity|exact I]].
    destruct prev.
    + rewrite filter_point by reflexivity.
      destruct (IH WF (k - 1)%Z r false) as [Hn Hs]. split.
      * apply nonadjacent_cons; [exact Hn|].
        destruct (List.filter _ _); [exact I|]. cbn. discriminate.
      * cbn. reflexivity.
    + destruct (Np.gtb r _).
      * rewrite filter_point by reflexivity.
        destruct (IH WF (k - 1)%Z (r - Np.pow2 k)%Q true) as [Hn Hs]. split.
        -- apply nonadjacent_cons; [exact Hn|].
           destruct (List.filter _ _); [exact I|]. cbn in *. intros _. apply Hs. reflexivity.
        -- cbn. discriminate.
      * destruct (Np.ltb r _).
        -- rewrite filter_point by reflexivity.
           destruct (IH WF (k - 1)%Z (r + Np.pow2 k)%Q true) as [Hn Hs]. split.
           ++ apply nonadjacent_cons; [exact Hn|].
              destruct (List.filter _ _); [exact I|]. cbn in *. intros _. apply Hs. reflexivity.
           ++ cbn. discriminate.
        -- rewrite filter_point by reflexivity.
           destruct (IH WF (k - 1)%Z r false) as [Hn Hs]. split.
           ++ apply nonadjacent_cons; [exact Hn|].
              destruct (List.filter _ _); [exact I|]. cbn. discriminate.
           ++ cbn. discriminate.
Qed.

Lemma csd_loop_S (f : nat) (WF k : Z) (r : Q) (prev : bool) :
  CSD.csd_loop (S f) WF k r prev
  = if (- WF <=? k)%Z then
      let limit := (Np.pow2 (k + 1) / 3)%Q in
      let point := if (k =? -1)%Z then ["."%char] else [] in
      if prev then (point ++ "0"%char :: CSD.csd_loop f WF (k - 1) r false)%list
      else if Np.gtb r limit then
        (point ++ "+"%char :: CSD.csd_loop f WF (k - 1) (r - Np.pow2 k) true)%list
      else if Np.ltb r (- limit) then
        (point ++ "-"%char :: CSD.csd_loop f WF (k - 1) (r + Np.pow2 k) true)%list
      else (point ++ "0"%char :: CSD.csd_loop f WF (k - 1) r false)%list
    else [].
Proof. reflexivity. Qed.

(** The fuel given by [dec2csd] is the number of iterations of the
    [while] loop: more fuel changes nothing. *)
Lemma csd_loop_fuel (n : nat) :
  forall (WF k : Z) (remainder : Q) (prev_non_zero : bool),
    (k + WF + 1 <= Z.of_nat n)%Z ->
    CSD.csd_loop (S n) WF k remainder prev_non_zero
    = CSD.csd_loop n WF k remainder prev_non_zero.
Proof.
  induction n as [|n IH]; intros WF k r prev Hk.
  - cbn [CSD.csd_loop]. destruct (Z.leb_spec (- WF) k); [lia|reflexivity].
  - rewrite (csd_loop_S (S n) WF k r prev), (csd_loop_S n WF k r prev). cbv zeta.
    destruct (Z.leb_spec (- WF) k); [|reflexivity].
    assert (Hk' : (k - 1 + WF + 1 <= Z.of_nat n)%Z) by lia.
    destruct prev; [rewrite (IH _ _ _ _ Hk'); reflexivity|].
    destruct (Np.gtb r _); [rewrite (IH _ _ _ _ Hk'); reflexivity|].
    destruct (Np.ltb r _); rewrite (IH _ _ _ _ Hk'); reflexivity.
Qed.

Lemma chars_str (l : list ascii) : Py.chars (Py.str l) = l.
Proof. apply list_ascii_of_string_of_list_ascii. Qed.

(** C9: the text produced by [dec2csd], radix point ignored, never has two
    neighbouring symbols other than ['0']: the digit after a ['+'] or a
    ['-'] is ['0'], for every value and every number of fractional
    places. *)
Theorem C9_csd_nonadjacent (dec_val : Q) (WF : Z) :
  nonadjacent (csd_symbols (CSD.dec2csd dec_val WF)) = true.
Proof.
  unfold CSD.dec2csd, csd_symbols.
  destruct (Qeq_bool dec_val 0); [reflexivity|].
  rewrite chars_str.
  pose proof (csd_loop_nonadjacent
                (Z.to_nat (CSD.start_exp dec_val - 1 + WF + 1)) WF
                (CSD.start_exp dec_val - 1) dec_val false) as [Hn Hs].
  destruct (Np.ltb (Qabs dec_val) 1); [|exact Hn].
  change (nonadjacent ("0"%char :: List.filter nodot
            (CSD.csd_loop (Z.to_nat (CSD.start_exp dec_val - 1 + WF + 1)) WF
               (CSD.start_exp dec_val - 1) dec_val false)) = true).
  apply nonadjacent_cons; [exact Hn|].
  destruct (List.filter _ _); [exact I|]. cbn. discriminate.
Qed.

End CsdFacts.

(** ** Decoding CSD texts *)

Section Csd2decFacts.

Lemma len_str (l : list ascii) : Py.len (Py.str l) = Z.of_nat (List.length l).
Proof.
  unfold Py.len, Py.str. f_equal.
  induction l as [|c l IH]; [reflexivity|]. cbn. rewrite IH. reflexivity.
Qed.

Lemma keep_none (P : ascii -> bool) (s : string) :
  (Py.len (Py.keep P s) =? 0)%Z = true <->
  (forall c, In c (Py.chars s) -> P c = false).
Proof.
  unfold Py.keep. rewrite len_str. rewrite Z.eqb_eq.
  induction (Py.chars s) as [|a l IH]; cbn [List.filter].
  - split; [intros _ c []|reflexivity].
  - destruct (P a) eqn:Ea.
    + cbn [List.length]. split; [lia|].
      intros H. specialize (H a (or_introl eq_refl)). congruence.
    + rewrite IH. split.
      * intros H c [<-|Hc]; [exact Ea|exact (H c Hc)].
      * intros H c Hc. apply H. right. exact Hc.
Qed.





End Csd2decFacts.








(** ** Texts with a radix point *)

Section TextFacts.


Lemma chars_app (s t : string) :
  Py.chars (s ++ t) = (Py.chars s ++ Py.chars t)%list.
Proof.
  induction s as [|c s IH]; [reflexivity|].
  unfold Py.chars in *.
  change (c :: list_ascii_of_string (s ++ t)
          = c :: (list_ascii_of_string s ++ list_ascii_of_string t)%list).
  rewrite IH. reflexivity.
Qed.









End TextFacts.

(** ** Binary and hexadecimal texts *)







(** ** The decimal format *)




(** ** The range of the values [fixp] returns *)

Section RoundingFacts.

Lemma inj_lt (a b : Z) : (a < b)%Z <-> (inject_Z a < inject_Z b)%Q.
Proof. rewrite <- Zlt_Qlt. reflexivity. Qed.

Lemma inj_le (a b : Z) : (a <= b)%Z <-> (inject_Z a <= inject_Z b)%Q.
Proof. rewrite <- Zle_Qle. reflexivity. Qed.

Lemma fix_comp (x y : Q) : (x == y)%Q -> Np.fix_ x = Np.fix_ y.
Proof.
  intros H. unfold Np.fix_, Np.floor, Np.ceil.
  rewrite (Qfloor_comp x y H), (Qceiling_comp x y H).
  assert (Hb : Qle_bool 0 x = Qle_bool 0 y) by (rewrite H; reflexivity).
  rewrite Hb. reflexivity.
Qed.

(** [np.fix] of a quotient of integers is the truncating division. *)
Lemma fix_quot (a b : Z) :
  (0 < b)%Z -> Np.fix_ (inject_Z a / inject_Z b) = inject_Z (Z.quot a b).
Proof.
  intros Hb. unfold Np.fix_, Np.floor, Np.ceil.
  assert (Hbq : (0 < inject_Z b)%Q) by exact (proj1 (inj_lt 0 b) Hb).
  destruct (Z.le_gt_cases 0 a) as [Ha|Ha].
  - assert (H0 : (0 <= inject_Z a / inject_Z b)%Q).
    { apply Qle_shift_div_l; [exact Hbq|]. rewrite Qmult_0_l.
      exact (proj1 (inj_le 0 a) Ha). }
    apply Qle_bool_iff in H0. rewrite H0.
    rewrite <- Zdiv_Qdiv. rewrite Z.quot_div_nonneg by lia. reflexivity.
  - assert (H0 : Qle_bool 0 (inject_Z a / inject_Z b) = false).
    { destruct (Qle_bool 0 _) eqn:E; [|reflexivity].
      apply Qle_bool_iff in E. exfalso.
      apply (Qmult_le_r _ _ (inject_Z b) Hbq) in E.
      rewrite Qmult_0_l in E.
      unfold Qdiv in E. rewrite <- Qmult_assoc, (Qmult_comm (/ inject_Z b)) in E.
      rewrite Qmult_inv_r, Qmult_1_r in E
        by (intros Hz; rewrite Hz in Hbq; apply (Qlt_irrefl 0 Hbq)).
      apply (proj2 (inj_le 0 a)) in E. lia. }
    rewrite H0. unfold Qceiling.
    assert (Hneg : (- (inject_Z a / inject_Z b) == inject_Z (- a) / inject_Z b)%Q).
    { rewrite inject_Z_opp. unfold Qdiv. ring. }
    rewrite Hneg, <- Zdiv_Qdiv.
    rewrite <- (Z.quot_div_nonneg (- a) b) by lia.
    rewrite Z.quot_opp_l by lia. f_equal. lia.
Qed.

Lemma inject_Z_nonzero (a : Z) : a <> 0%Z -> ~ (inject_Z a == 0)%Q.
Proof.
  intros Ha E. apply Ha. apply (proj1 (inject_Z_injective a 0)). exact E.
Qed.

Lemma scaled_le (a b : Z) (l : Q) :
  (0 < l)%Q -> ((inject_Z a * l <= inject_Z b * l)%Q <-> (a <= b)%Z).
Proof.
  intros Hl. rewrite Qmult_le_r by exact Hl. symmetry. apply inj_le.
Qed.

Lemma scaled_lt (a b : Z) (l : Q) :
  (0 < l)%Q -> ((inject_Z a * l < inject_Z b * l)%Q <-> (a < b)%Z).
Proof.
  intros Hl. rewrite Qmult_lt_r by exact Hl. symmetry. apply inj_lt.
Qed.

Lemma sign_scaled (k : Z) (l : Q) (v : Q) :
  (0 < l)%Q -> (v == inject_Z k * l)%Q -> Np.sign v = inject_Z (Z.sgn k).
Proof.
  intros Hl Hv. unfold Np.sign. rewrite Hv.
  assert (H0 : (inject_Z 0 * l == 0)%Q) by ring.
  destruct (Qcompare_spec (inject_Z k * l) 0) as [E|E|E]; rewrite <- H0 in E.
  - assert (k = 0%Z) as ->; [|reflexivity].
    apply Z.le_antisymm.
    + apply (proj1 (scaled_le k 0 l Hl)). rewrite E. apply Qle_refl.
    + apply (proj1 (scaled_le 0 k l Hl)). rewrite E. apply Qle_refl.
  - apply (proj1 (scaled_lt k 0 l Hl)) in E. rewrite Z.sgn_neg by exact E. reflexivity.
  - apply (proj1 (scaled_lt 0 k l Hl)) in E. rewrite Z.sgn_pos by exact E. reflexivity.
Qed.

End RoundingFacts.

Section WrapFacts.



Lemma wrap_formula_scaled (self : Fixed) (D k : Z) (v : Q) :
  (0 < LSB self)%Q -> (1 <= D)%Z ->
  (2 * MSB self == inject_Z D * LSB self)%Q ->
  (v == inject_Z k * LSB self)%Q ->
  (Quantizer.wrap_formula self v == inject_Z (wrap_int D k) * LSB self)%Q.
Proof.
  intros HL HD HM Hv. unfold Quantizer.wrap_formula.
  set (L := LSB self) in *. set (M := MSB self) in *.
  assert (HL0 : ~ (L == 0)%Q) by (intros E; rewrite E in HL; apply (Qlt_irrefl 0 HL)).
  assert (HDq : ~ (inject_Z (2 * D) == 0)%Q) by (apply inject_Z_nonzero; lia).
  assert (HM' : (M == inject_Z D * L * (1 # 2))%Q) by lra.
  assert (Harg : ((Np.sign v * 2 * M + v) / (4 * M)
                  == inject_Z (Z.sgn k * D + k) / inject_Z (2 * D))%Q).
  { rewrite (sign_scaled k L v HL Hv), Hv, HM'.
    rewrite inject_Z_plus, !inject_Z_mult.
    assert (HD0 : ~ (inject_Z D == 0)%Q) by (apply inject_Z_nonzero; lia).
    change (inject_Z 2) with 2%Q. field. split; assumption. }
  rewrite (fix_comp _ _ Harg), fix_quot by lia.
  unfold wrap_int. rewrite Hv, HM'.
  unfold Z.sub. rewrite inject_Z_plus, inject_Z_opp, !inject_Z_mult.
  change (inject_Z 2) with 2%Q. ring.
Qed.

End WrapFacts.

Section ConfigFacts.

Lemma abs_int_nonneg (v a : qval) (wf : Z) :
  Config.py_abs v = Ok a -> Config.py_int a = Ok wf -> (0 <= wf)%Z.
Proof.
  destruct v as [z|q|t]; cbn; intros Ha; [| |discriminate].
  - injection Ha as <-. cbn. intros Hw. injection Hw as <-. lia.
  - injection Ha as <-. cbn.
    assert (H0 : (0 <= Qabs q)%Q) by apply Qabs_nonneg.
    pose proof H0 as Hb. apply Qle_bool_iff in Hb. rewrite Hb.
    intros Hw. injection Hw as <-.
    apply (Qfloor_resp_le 0 (Qabs q)) in H0. exact H0.
Qed.

Lemma setQobj_configured (has_attrs : bool) q self q1 self' :
  Config.setQobj has_attrs q self = (Ok q1, self') -> configured self'.
Proof.
  unfold Config.setQobj. destruct (forallb _ _); [|discriminate].
  intros H.
  apply bind_eval_Ok in H. destruct H as [q0 [_ H]].
  apply bind_eval_Ok in H. destruct H as [wi_v [_ H]].
  apply bind_eval_Ok in H. destruct H as [wi [_ H]].
  rewrite bind_assign in H.
  apply bind_eval_Ok in H. destruct H as [wf_v [_ H]].
  apply bind_eval_Ok in H. destruct H as [wf_a [Habs H]].
  apply bind_eval_Ok in H. destruct H as [wf [Hint H]].
  apply bind_eval_Ok in H. destruct H as [qu [_ H]].
  apply bind_eval_Ok in H. destruct H as [ov [_ H]].
  apply bind_eval_Ok in H. destruct H as [fr [_ H]].
  rewrite bind_assign in H.
  apply bind_eval_Ok in H. destruct H as [sc_v [_ H]].
  apply bind_eval_Ok in H. destruct H as [sc [_ H]].
  rewrite bind_assign in H.
  apply bind_eval_Ok in H. destruct H as [b [Hb H]].
  rewrite bind_assign in H.
  injection H as _ <-.
  pose proof (abs_int_nonneg _ _ _ Habs Hint) as Hwf.
  split.
  - unfold derived. cbn. repeat split; try reflexivity. exact Hwf.
  - cbn. exact Hb.
Qed.

Lemma fixp_num_derived self y scaling :
  derived self -> derived (snd (Quantizer.fixp_num self y scaling)).
Proof.
  intros H. unfold Quantizer.fixp_num.
  destruct (Quantizer.requant_all _ _); cbn; [|exact H].
  destruct (String.eqb _ "none"); cbn; [exact H|].
  destruct (String.eqb _ "sat"); cbn; [exact H|].
  destruct (String.eqb _ "wrap"); cbn; exact H.
Qed.

(** [__init__] builds a configured object. *)
Lemma init_configured q self : Fix.init q = Ok self -> configured self.
Proof.
  intros Hi. apply init_Ok in Hi. destruct Hi as (q1 & self0 & Hs & ->).
  apply setQobj_configured in Hs. exact Hs.
Qed.

(** With [WI + WF >= 0] the bounds are whole multiples of [LSB]. *)
Lemma derived_scaled self :
  derived self -> (0 <= WI self + WF self)%Z ->
  let D := (2 ^ (WI self + WF self))%Z in
  (1 <= D)%Z /\ (0 < LSB self)%Q
  /\ (2 * MSB self == inject_Z D * LSB self)%Q
  /\ (MAX self == inject_Z (D - 1) * LSB self)%Q
  /\ (MIN self == inject_Z (- D) * LSB self)%Q.
Proof.
  intros (Hwf & _ & HL & HM & Hmax & Hmin) Hw D.
  assert (HD : (1 <= D)%Z) by (apply Z.lt_pred_le, Z.pow_pos_nonneg; lia).
  assert (HLpos : (0 < LSB self)%Q) by (rewrite HL; apply pow2_pos).
  assert (H2M : (2 * MSB self == inject_Z D * LSB self)%Q).
  { rewrite HM, HL. unfold D. rewrite <- pow2_nonneg_Z by exact Hw.
    rewrite <- pow2_plus.
    replace (WI self + WF self + - WF self)%Z with (1 + (WI self - 1))%Z by lia.
    rewrite pow2_plus. reflexivity. }
  repeat split; try assumption.
  - rewrite Hmax, H2M. unfold Z.sub. rewrite inject_Z_plus, inject_Z_opp.
    change (inject_Z 1) with 1%Q. ring.
  - rewrite Hmin. rewrite inject_Z_opp.
    assert (E : (- (2) * MSB self == - (2 * MSB self))%Q) by ring.
    rewrite E, H2M. ring.
Qed.

End ConfigFacts.

Section RangeFacts.


Lemma bounds_ordered self : derived self -> (0 <= W self)%Z -> (MIN self <= MAX self)%Q.
Proof.
  intros (Hwf & HW & HL & HM & Hmax & Hmin) Hw.
  assert (Hle : (Np.pow2 (- WF self) <= Np.pow2 (2 + (WI self - 1)))%Q).
  { unfold Np.pow2. apply Qpower_le_compat_l; [lia|discriminate]. }
  rewrite pow2_plus in Hle. change (Np.pow2 2) with 4%Q in Hle.
  rewrite Hmax, Hmin, HL. rewrite HM. lra.
Qed.

Lemma saturate_in_range self (v : Q) :
  (MIN self <= MAX self)%Q -> in_range self (Quantizer.saturate self v).
Proof.
  intros Hb. unfold Quantizer.saturate, Quantizer.over_neg, Quantizer.over_pos, in_range.
  destruct (Np.ltb v (MIN self)) eqn:En.
  - split; [apply Qle_refl|exact Hb].
  - apply ltb_ge in En. destruct (Np.geb v (MAX self)) eqn:Ep.
    + split; [exact Hb|apply Qle_refl].
    + apply geb_lt in Ep. split; [exact En|apply Qlt_le_weak, Ep].
Qed.

Lemma postscale_id self (scaling : string) (x : Q) :
  (scaling = "div" -> (scale self == 1)%Q) ->
  (Quantizer.postscale self scaling x == x)%Q.
Proof.
  intros H. unfold Quantizer.postscale, is_div.
  destruct (String.eqb_spec scaling "div") as [E|_]; [|reflexivity].
  rewrite (H E). field.
Qed.

Lemma requant_mode_integer self (f : Q -> Q) (y : Q) :
  quant self <> "none" -> Quantizer.requant_mode self = Ok f ->
  exists k, f y = inject_Z k.
Proof.
  intros Hq. unfold Quantizer.requant_mode.
  destruct (String.eqb _ "floor"); [intros [= <-]; eexists; reflexivity|].
  destruct (String.eqb _ "round"); [intros [= <-]; eexists; reflexivity|].
  destruct (String.eqb _ "fix").
  { intros [= <-]. unfold Np.fix_. destruct (Qle_bool 0 y); eexists; reflexivity. }
  destruct (String.eqb _ "ceil"); [intros [= <-]; eexists; reflexivity|].
  destruct (String.eqb _ "rint"); [intros [= <-]; eexists; reflexivity|].
  destruct (String.eqb_spec (quant self) "none"); [contradiction|discriminate].
Qed.




End RangeFacts.





(** ** Binary texts of integers *)

Section BinaryFacts.

Lemma digits_val_app (b acc : Z) (l m : list ascii) :
  Py.digits_val b acc (l ++ m)
  = match Py.digits_val b acc l with
    | Some a => Py.digits_val b a m
    | None => None
    end.
Proof.
  revert acc. induction l as [|c l IH]; intros acc; [reflexivity|].
  cbn [app Py.digits_val]. destruct (Py.digit_val b c); [apply IH|reflexivity].
Qed.




Lemma digits_val_zeros (m : nat) (a : Z) :
  Py.digits_val 2 a (repeat "0"%char m) = Some (a * 2 ^ Z.of_nat m)%Z.
Proof.
  revert a. induction m as [|m IH]; intros a.
  - cbn. f_equal. lia.
  - cbn [repeat Py.digits_val]. change (Py.digit_val 2 "0") with (Some 0%Z).
    cbv iota. rewrite IH. f_equal. rewrite Nat2Z.inj_succ, Z.pow_succ_r by lia. lia.
Qed.


Lemma binary_repeat (c : ascii) (m : nat) :
  c = "0"%char \/ c = "1"%char -> binary (repeat c m).
Proof. intros Hc x Hx. apply repeat_spec in Hx. subst x. exact Hc. Qed.

Lemma binary_app (l m : list ascii) : binary l -> binary m -> binary (l ++ m).
Proof.
  intros Hl Hm c Hc. apply in_app_iff in Hc. destruct Hc; [apply Hl|apply Hm]; assumption.
Qed.



End BinaryFacts.

(** ** [fixp] on representable values *)

Section RepresentableFacts.

Lemma rint_z_comp (x y : Q) : (x == y)%Q -> Np.rint_z x = Np.rint_z y.
Proof.
  intros H. unfold Np.rint_z. rewrite (Qfloor_comp x y H).
  assert (E : ((x - inject_Z (Qfloor y) ?= 1 # 2) = (y - inject_Z (Qfloor y) ?= 1 # 2))%Q)
    by (rewrite H; reflexivity).
  cbv zeta. rewrite E. reflexivity.
Qed.

Lemma rint_z_integer (k : Z) : Np.rint_z (inject_Z k) = k.
Proof.
  unfold Np.rint_z. rewrite Qfloor_Z. cbv zeta.
  assert (E : ((inject_Z k - inject_Z k ?= 1 # 2) = Lt)%Q).
  { apply Qlt_alt. assert (H : (inject_Z k - inject_Z k == 0)%Q) by ring.
    rewrite H. reflexivity. }
  rewrite E. reflexivity.
Qed.

Lemma fix_integer (k : Z) : Np.fix_ (inject_Z k) = inject_Z k.
Proof.
  unfold Np.fix_, Np.floor, Np.ceil. rewrite Qfloor_Z, Qceiling_Z.
  destruct (Qle_bool 0 (inject_Z k)); reflexivity.
Qed.

(** A known rounding mode leaves an integer as it is. *)
Lemma requant_exact self (x : Q) (k : Z) :
  known_quant self -> (x == inject_Z k)%Q ->
  exists f, Quantizer.requant_mode self = Ok f /\ (f x == inject_Z k)%Q.
Proof.
  intros Hq Hx. unfold Quantizer.requant_mode, known_quant in *. cbn [In] in Hq.
  destruct Hq as [E|[E|[E|[E|[E|[E|[]]]]]]]; rewrite <- E;
    cbn [String.eqb Ascii.eqb Bool.eqb]; eexists; (split; [reflexivity|]).
  - unfold Np.floor. rewrite (Qfloor_comp _ _ Hx), Qfloor_Z. reflexivity.
  - unfold Np.round, Np.rint. rewrite (rint_z_comp _ _ Hx), rint_z_integer. reflexivity.
  - rewrite (fix_comp _ _ Hx), fix_integer. reflexivity.
  - unfold Np.ceil. rewrite (Qceiling_comp _ _ Hx), Qceiling_Z. reflexivity.
  - unfold Np.rint. rewrite (rint_z_comp _ _ Hx), rint_z_integer. reflexivity.
  - exact Hx.
Qed.

Lemma wrap_int_top (D : Z) : (1 <= D)%Z -> wrap_int D (D - 1) = (D - 1)%Z.
Proof.
  intros HD. unfold wrap_int.
  destruct (Z.eq_dec D 1) as [->|HD1]; [reflexivity|].
  rewrite Z.sgn_pos by lia. rewrite Z.quot_small by lia. lia.
Qed.

Lemma fixp_num_same_config self y scaling :
  config_of (snd (Quantizer.fixp_num self y scaling)) = config_of self.
Proof.
  unfold Quantizer.fixp_num.
  destruct (Quantizer.requant_all _ _); cbn; [|reflexivity].
  destruct (String.eqb _ "none"); cbn; [reflexivity|].
  destruct (String.eqb _ "sat"); cbn; [reflexivity|].
  destruct (String.eqb _ "wrap"); cbn; reflexivity.
Qed.

Lemma fixp_num_none self y scaling yq :
  ovfl self = "none" ->
  quantized self scaling (elems y) = Ok yq ->
  fst (Quantizer.fixp_num self y scaling)
  = Ok (reshape y (map (Quantizer.postscale self scaling) yq)).
Proof.
  intros Hov Hq. unfold quantized in Hq. unfold Quantizer.fixp_num.
  rewrite requant_all_flags, prescale_flags.
  destruct (Quantizer.requant_all self _) as [qs|m]; [|discriminate].
  injection Hq as <-.
  change (ovfl (Quantizer.set_flags self _)) with (ovfl self).
  rewrite Hov. reflexivity.
Qed.

Lemma prescale_exact self (scaling : string) (y : Q) (k : Z) :
  (0 < LSB self)%Q -> (scale self == 1)%Q -> (y == inject_Z k * LSB self)%Q ->
  (Quantizer.prescale self scaling y == inject_Z k)%Q.
Proof.
  intros HL Hs Hy. unfold Quantizer.prescale.
  assert (HL0 : ~ (LSB self == 0)%Q)
    by (intros E; rewrite E in HL; apply (Qlt_irrefl 0 HL)).
  assert (E : (y / LSB self == inject_Z k)%Q) by (rewrite Hy; field; exact HL0).
  destruct (is_mult scaling); [rewrite E, Hs; ring|exact E].
Qed.

(** A value [k LSB] inside the range goes through [fixp] unchanged when
    [scale] is [1]. *)
Lemma fixp_representable self (y : Q) (k : Z) (scaling : string) :
  derived self -> (0 <= WI self + WF self)%Z -> (scale self == 1)%Q ->
  known_quant self -> known_ovfl self ->
  (- 2 ^ (WI self + WF self) <= k <= 2 ^ (WI self + WF self) - 1)%Z ->
  (y == inject_Z k * LSB self)%Q ->
  exists q lg,
    Fix.fixp self (PNum y) scaling
    = (Ok q, snd (Quantizer.fixp_num self (Scalar y) scaling), lg)
    /\ (q == inject_Z k * LSB self)%Q.
Proof.
  intros Hd Hw Hs Hqu Hov Hk Hy.
  destruct (derived_scaled self Hd Hw) as (HD & HL & H2M & Hmax & Hmin).
  set (D := (2 ^ (WI self + WF self))%Z) in *.
  destruct (requant_exact self _ k Hqu (prescale_exact self scaling y k HL Hs Hy))
    as (f & Hf & Eq0).
  set (q0 := f (Quantizer.prescale self scaling y)) in *.
  assert (Hyq : (q0 * LSB self == inject_Z k * LSB self)%Q) by (rewrite Eq0; reflexivity).
  assert (Hquant : quantized self scaling (elems (Scalar y)) = Ok [(q0 * LSB self)%Q]).
  { unfold quantized, Quantizer.requant_all. rewrite Hf. reflexivity. }
  assert (Hpost : forall x, (x == inject_Z k * LSB self)%Q ->
                            (Quantizer.postscale self scaling x == inject_Z k * LSB self)%Q).
  { intros x Hx. rewrite postscale_id by (intros _; exact Hs). exact Hx. }
  assert (Hneg : Np.ltb (q0 * LSB self) (MIN self) = false).
  { apply ltb_ge. rewrite Hyq, Hmin. apply scaled_le; [exact HL|lia]. }
  assert (Hres : exists q,
             fst (Quantizer.fixp_num self (Scalar y) scaling) = Ok (Scalar q)
             /\ (q == inject_Z k * LSB self)%Q).
  { unfold known_ovfl in Hov. cbn [In] in Hov.
    destruct Hov as [E|[E|[E|[]]]]; symmetry in E.
    - rewrite (fixp_num_none self _ scaling _ E Hquant). cbn [map reshape hd].
      eexists. split; [reflexivity|]. apply Hpost, Hyq.
    - rewrite (fixp_num_sat self _ scaling _ E Hquant). cbn [map reshape hd].
      eexists. split; [reflexivity|]. apply Hpost.
      unfold Quantizer.saturate, Quantizer.over_neg, Quantizer.over_pos.
      rewrite Hneg. destruct (Np.geb _ (MAX self)) eqn:Ep; [|exact Hyq].
      apply geb_ge in Ep. rewrite Hyq, Hmax in Ep.
      apply (proj1 (scaled_le (D - 1) k _ HL)) in Ep.
      rewrite Hmax. assert (k = (D - 1)%Z) as -> by lia. reflexivity.
    - rewrite (fixp_num_wrap self _ scaling _ E Hquant). cbn [map reshape hd].
      eexists. split; [reflexivity|]. apply Hpost.
      unfold Quantizer.wrap, Quantizer.over_neg, Quantizer.over_pos.
      rewrite Hneg, orb_false_r. destruct (Np.geb _ (MAX self)) eqn:Ep; [|exact Hyq].
      apply geb_ge in Ep. rewrite Hyq, Hmax in Ep.
      apply (proj1 (scaled_le (D - 1) k _ HL)) in Ep.
      assert (k = (D - 1)%Z) as -> by lia.
      rewrite (wrap_formula_scaled self D (D - 1) _ HL HD H2M Hyq).
      rewrite wrap_int_top by exact HD. reflexivity. }
  destruct Hres as (q & Hfst & Hq).
  unfold Fix.fixp. cbn [Fix.coerce].
  destruct (Quantizer.fixp_num self (Scalar y) scaling) as [[r|m] self'];
    cbn [fst snd] in *; [|discriminate].
  injection Hfst as ->. cbn [elems hd]. exists q, []. split; [reflexivity|exact Hq].
Qed.

End RepresentableFacts.

(** ** The numeric base of the object *)

Section BaseFacts.

Lemma fixp_num_configured self y scaling :
  configured self -> configured (snd (Quantizer.fixp_num self y scaling)).
Proof.
  intros [Hd Hb]. split; [apply fixp_num_derived, Hd|].
  pose proof (fixp_num_same_config self y scaling) as E. unfold config_of in E.
  injection E as _ _ -> _ _ -> _ _ _ _ _ ->. exact Hb.
Qed.


End BaseFacts.

(** ** The binary format, there and back *)

Section BinRoundTrip.











End BinRoundTrip.

(** ** Round trip *)

Lemma range_integer self (v : Q) (k : Z) :
  derived self -> (0 <= WI self + WF self)%Z ->
  (v == inject_Z k * LSB self)%Q -> in_range self v ->
  (- 2 ^ (WI self + WF self) <= k <= 2 ^ (WI self + WF self) - 1)%Z.
Proof.
  intros Hd Hw Hv [H1 H2].
  destruct (derived_scaled self Hd Hw) as (HD & HL & H2M & Hmax & Hmin).
  rewrite Hv, Hmin in H1. rewrite Hv, Hmax in H2.
  apply (proj1 (scaled_le _ _ _ HL)) in H1.
  apply (proj1 (scaled_le _ _ _ HL)) in H2. lia.
Qed.




(** ** The examples of the docstrings *)

Section DocExamples.

(** [+00- = +7], [-0+0 = -6], [+0.-0- = 1.375] (docstring of [csd2dec]). *)
Example csd2dec_doc :
  CSD.csd2dec "+00-" 0 = (Some (0 + 8 - 1)%Q, [])
  /\ (exists v, CSD.csd2dec "-0+0" 0 = (Some v, []) /\ (v == - (6))%Q)
  /\ (exists v, CSD.csd2dec "+0.-0-" 0 = (Some v, []) /\ (v == 1375 # 1000)%Q).
Proof.
  split; [reflexivity|]. split; eexists; (split; [reflexivity|reflexivity]).
Qed.

(** [dec2csd] writes these values with the same digits. *)
Example dec2csd_doc :
  CSD.dec2csd 7 0 = "+00-" /\ CSD.dec2csd (- (6)) 0 = "-0+0"
  /\ CSD.dec2csd (1375 # 1000) 3 = "+0.-0-".
Proof. repeat split; vm_compute; reflexivity. Qed.

Example bin2hex_dec2hex :
  BaseCodec.bin2hex "0101" = Ok "5" /\ BaseCodec.bin2hex "11111111" = Ok "FF"
  /\ BaseCodec.dec2hex (-1) 8 = Ok "FF" /\ BaseCodec.dec2hex 10 8 = Ok "A".
Proof. repeat split; vm_compute; reflexivity. Qed.

(** [strip("0")] also removes the zeros at the end: [0x10] becomes ["1"]. *)
Example bin2hex_trailing_zero : BaseCodec.bin2hex "00010000" = Ok "1".
Proof. vm_compute. reflexivity. Qed.

(** [Q = '1.14'] sets [WI = 1] and [WF = 14] (docstring of [Fixed]). *)
Example setQobj_Q :
  exists self,
    Fix.init (<["Q" := VStr "1.14"]> (<["ovfl" := VStr "sat"]> ∅)) = Ok self
    /\ WI self = 1%Z /\ WF self = 14%Z /\ W self = 16%Z.
Proof. eexists. split; [vm_compute; reflexivity|]. repeat split. Qed.

(** An unknown key, and an unknown format, raise. *)
Example setQobj_unknown :
  Fix.init (<["wi" := VInt 1]> ∅) = Raise "Unknown Key"
  /\ Fix.init (<["frmt" := VStr "int"]> ∅) = Raise "Unknown format int".
Proof. split; vm_compute; reflexivity. Qed.

(** A [setQobj] that raises on ['WF'] has assigned ['WI'] already. *)
Example setQobj_partial :
  let r := Config.setQobj true (<["WI" := VInt 5]> (<["WF" := VStr "x"]> ∅)) fixed_a in
  fst r = Raise "TypeError" /\ WI (snd r) = 5%Z /\ W (snd r) = 8%Z.
Proof. vm_compute. repeat split. Qed.

End DocExamples.

(** ** Digits in any base up to sixteen *)

Lemma digit_char_val (b d : Z) :
  (0 <= d < b)%Z -> (b <= 16)%Z -> Py.digit_val b (Py.digit_char d) = Some d.
Proof.
  intros Hd Hb.
  assert (E : d = 0 \/ d = 1 \/ d = 2 \/ d = 3 \/ d = 4 \/ d = 5 \/ d = 6 \/ d = 7
              \/ d = 8 \/ d = 9 \/ d = 10 \/ d = 11 \/ d = 12 \/ d = 13 \/ d = 14
              \/ d = 15) by lia.
  repeat (destruct E as [-> | E]); try subst d;
    match goal with
    | |- Py.digit_val b (Py.digit_char ?k) = _ =>
        change (Py.digit_val b (Py.digit_char k)) with (if (k <? b)%Z then Some k else None);
        destruct (Z.ltb_spec k b); [reflexivity|lia]
    end.
Qed.

Lemma digits_of_base (b : Z) (fuel : nat) :
  (2 <= b <= 16)%Z ->
  forall (n : Z) (acc : list ascii),
    (0 <= n < 2 ^ Z.of_nat fuel)%Z -> (0 < fuel)%nat ->
    exists l,
      Py.digits_of b fuel n acc = (l ++ acc)%list
      /\ Forall (digit_of b) l
      /\ (forall a, Py.digits_val b a l = Some (a * b ^ Z.of_nat (List.length l) + n)%Z)
      /\ (1 <= List.length l)%nat.
Proof.
  intros Hb. induction fuel as [|fuel IH]; intros n acc Hn Hf; [lia|].
  cbn [Py.digits_of].
  pose proof (Z.mod_pos_bound n b ltac:(lia)) as Hd.
  pose proof (Z.div_mod n b ltac:(lia)) as Hdm.
  pose proof (digit_char_val b (n mod b) Hd ltac:(lia)) as Hv.
  assert (Hc : digit_of b (Py.digit_char (n mod b))) by (exists (n mod b); split; [lia|reflexivity]).
  destruct (Z.eqb_spec (n / b) 0) as [Hz|Hnz].
  - exists [Py.digit_char (n mod b)]. repeat split.
    + constructor; [exact Hc|constructor].
    + intros a. cbn [Py.digits_val]. rewrite Hv. cbn [List.length]. f_equal.
      change (Z.of_nat 1) with 1%Z. rewrite Z.pow_1_r. lia.
    + cbn [List.length]. lia.
  - assert (Hnb : (0 <= n / b)%Z) by (apply Z.div_pos; lia).
    assert (Hle : (n / b <= n / 2)%Z) by (apply Z.div_le_compat_l; lia).
    assert (Hfuel : (0 < fuel)%nat).
    { destruct fuel; [|lia]. change (2 ^ Z.of_nat 1)%Z with 2%Z in Hn.
      assert (n / 2 = 0)%Z by (apply Z.div_small; lia). lia. }
    assert (Hn2 : (0 <= n / b < 2 ^ Z.of_nat fuel)%Z).
    { rewrite Nat2Z.inj_succ, Z.pow_succ_r in Hn by lia.
      split; [exact Hnb|].
      assert (n / 2 < 2 ^ Z.of_nat fuel)%Z by (apply Z.div_lt_upper_bound; lia). lia. }
    destruct (IH (n / b)%Z (Py.digit_char (n mod b) :: acc) Hn2 Hfuel)
      as (l & Hl & Hdig & Hval & Hlen).
    exists (l ++ [Py.digit_char (n mod b)])%list.
    assert (Hpow : (b ^ Z.of_nat (List.length (l ++ [Py.digit_char (n mod b)]))
                    = b * b ^ Z.of_nat (List.length l))%Z).
    { rewrite length_app. cbn [List.length]. rewrite Nat2Z.inj_add.
      change (Z.of_nat 1) with 1%Z. rewrite Z.pow_add_r by lia. lia. }
    repeat split.
    + rewrite Hl, <- app_assoc. reflexivity.
    + apply Forall_app. split; [exact Hdig|]. constructor; [exact Hc|constructor].
    + intros a. rewrite digits_val_app, Hval. cbn [Py.digits_val]. rewrite Hv.
      f_equal. rewrite Hpow. lia.
    + rewrite length_app. lia.
Qed.

Lemma nat_digits_base (b n : Z) :
  (2 <= b <= 16)%Z -> (0 <= n)%Z ->
  Forall (digit_of b) (Py.nat_digits b n)
  /\ (forall a, Py.digits_val b a (Py.nat_digits b n)
                = Some (a * b ^ Z.of_nat (List.length (Py.nat_digits b n)) + n)%Z)
  /\ (1 <= List.length (Py.nat_digits b n))%nat.
Proof.
  intros Hb Hn. unfold Py.nat_digits.
  assert (Hfuel : (0 <= n < 2 ^ Z.of_nat (S (Z.to_nat (Z.log2 n))))%Z).
  { split; [exact Hn|]. rewrite Nat2Z.inj_succ, Z2Nat.id by apply Z.log2_nonneg.
    destruct (Z.eq_dec n 0) as [->|Hn0]; [reflexivity|].
    apply Z.log2_spec. lia. }
  destruct (digits_of_base b _ Hb n [] Hfuel ltac:(lia)) as (l & Hl & H).
  rewrite Hl, app_nil_r. exact H.
Qed.

(** ** [bin2hex] *)

Lemma digit_val_bit (c : ascii) :
  c <> "0"%char -> c <> "1"%char -> Py.digit_val 2 c = None.
Proof.
  intros H0 H1.
  destruct c as [[] [] [] [] [] [] [] []]; try reflexivity;
    exfalso; first [apply H0; reflexivity | apply H1; reflexivity].
Qed.

Lemma digits_val_none (b : Z) (l : list ascii) (c : ascii) :
  In c l -> Py.digit_val b c = None -> forall acc, Py.digits_val b acc l = None.
Proof.
  induction l as [|x l IH]; intros Hin Hc acc; [destruct Hin|].
  cbn [Py.digits_val]. destruct Hin as [->|Hin].
  - rewrite Hc. reflexivity.
  - destruct (Py.digit_val b x); [apply IH; assumption|reflexivity].
Qed.

(** A group of four binary digits and its entry in the table. *)
Lemma wmap_binary (a b c d : ascii) :
  binary [a; b; c; d] ->
  exists g, (0 <= g < 16)%Z
    /\ (forall acc, Py.digits_val 2 acc [a; b; c; d] = Some (acc * 16 + g)%Z)
    /\ BaseCodec.wmap [a; b; c; d] = Some (Py.digit_char g).
Proof.
  intros H.
  assert (Ha : a = "0"%char \/ a = "1"%char) by (apply H; cbn; tauto).
  assert (Hb : b = "0"%char \/ b = "1"%char) by (apply H; cbn; tauto).
  assert (Hc : c = "0"%char \/ c = "1"%char) by (apply H; cbn; tauto).
  assert (Hd : d = "0"%char \/ d = "1"%char) by (apply H; cbn; tauto).
  destruct Ha as [-> | ->], Hb as [-> | ->], Hc as [-> | ->], Hd as [-> | ->];
    match goal with
    | |- context [BaseCodec.wmap ?l] =>
        let v := eval vm_compute in (Py.digits_val 2 0 l) in
        match v with
        | Some ?g => exists g; split; [lia|split; [intros acc; cbn [Py.digits_val];
                 try change (Py.digit_val 2 "0"%char) with (Some 0%Z);
                 try change (Py.digit_val 2 "1"%char) with (Some 1%Z);
                 cbv iota beta; f_equal; lia|reflexivity]]
        end
    end.
Qed.

Lemma wmap_other (g : list ascii) (c : ascii) :
  In c g -> c <> "0"%char -> c <> "1"%char -> BaseCodec.wmap g = None.
Proof.
  intros Hin H0 H1. unfold BaseCodec.wmap.
  destruct g as [|x1 [|x2 [|x3 [|x4 [|x5 g]]]]]; try reflexivity.
  rewrite (digits_val_none 2 _ c Hin (digit_val_bit c H0 H1)). reflexivity.
Qed.

Lemma map_groups_binary (n : nat) :
  forall (fuel : nat) (l : list ascii),
    List.length l = (4 * n)%nat -> (n <= fuel)%nat -> binary l ->
    exists hs,
      BaseCodec.map_groups fuel l = Ok hs
      /\ Forall (digit_of 16) hs
      /\ (forall acc, Py.digits_val 16 acc hs = Py.digits_val 2 acc l).
Proof.
  induction n as [|n IH]; intros fuel l Hlen Hfuel Hbin.
  - destruct l; [|discriminate]. exists []. destruct fuel; repeat split; constructor.
  - destruct l as [|a [|b [|c [|d l]]]]; try (cbn in Hlen; lia).
    destruct fuel as [|fuel]; [lia|].
    assert (Hg : binary [a; b; c; d]).
    { intros x Hx. apply Hbin. cbn in Hx |- *. tauto. }
    assert (Hl : binary l).
    { intros x Hx. apply Hbin. cbn. tauto. }
    destruct (wmap_binary a b c d Hg) as (g & Hgr & Hgv & Hw).
    destruct (IH fuel l ltac:(cbn in Hlen; lia) ltac:(lia) Hl) as (hs & Hm & Hdig & Hval).
    exists (Py.digit_char g :: hs).
    cbn [BaseCodec.map_groups firstn skipn].
    change (firstn 0 l) with (@nil ascii). change (skipn 0 l) with l. rewrite Hw, Hm.
    split; [reflexivity|]. split.
    + constructor; [exists g; split; [lia|reflexivity]|exact Hdig].
    + intros acc. change (a :: b :: c :: d :: l) with ([a; b; c; d] ++ l)%list.
      rewrite digits_val_app, Hgv. cbn [Py.digits_val].
      rewrite (digit_char_val 16 g ltac:(lia) ltac:(lia)), Hval. reflexivity.
Qed.

Lemma map_groups_other (n : nat) :
  forall (fuel : nat) (l : list ascii) (c : ascii),
    List.length l = (4 * n)%nat -> (n <= fuel)%nat ->
    In c l -> c <> "0"%char -> c <> "1"%char ->
    BaseCodec.map_groups fuel l = Raise "KeyError".
Proof.
  induction n as [|n IH]; intros fuel l c Hlen Hfuel Hin H0 H1.
  - destruct l; [destruct Hin|discriminate].
  - destruct l as [|a [|b [|x [|d l]]]]; try (cbn in Hlen; lia).
    destruct fuel as [|fuel]; [lia|].
    cbn [BaseCodec.map_groups firstn skipn].
    change (firstn 0 l) with (@nil ascii). change (skipn 0 l) with l.
    destruct (BaseCodec.wmap [a; b; x; d]) as [h|] eqn:Hw; [|reflexivity].
    assert (Hc : In c l).
    { destruct (in_app_or [a; b; x; d] l c Hin) as [Hg|Hl]; [|exact Hl].
      rewrite (wmap_other _ c Hg H0 H1) in Hw. discriminate. }
    rewrite (IH fuel l c ltac:(cbn in Hlen; lia) ltac:(lia) Hc H0 H1). reflexivity.
Qed.

Lemma pad4_length (l : list ascii) :
  exists n, List.length (BaseCodec.pad4 l) = (4 * n)%nat.
Proof.
  unfold BaseCodec.pad4, Py.repeat_ch. rewrite length_app, repeat_length.
  pose proof (Z.mod_pos_bound (- Z.of_nat (List.length l)) 4 ltac:(lia)) as Hm.
  pose proof (Z.div_mod (- Z.of_nat (List.length l)) 4 ltac:(lia)) as Hdm.
  exists (Z.to_nat (- ((- Z.of_nat (List.length l)) / 4))). lia.
Qed.

Lemma pad4_binary (l : list ascii) : binary l -> binary (BaseCodec.pad4 l).
Proof.
  intros H. apply binary_app; [|exact H]. apply binary_repeat. left. reflexivity.
Qed.

Lemma pad4_value (l : list ascii) :
  Py.digits_val 2 0 (BaseCodec.pad4 l) = Py.digits_val 2 0 l.
Proof.
  unfold BaseCodec.pad4, Py.repeat_ch. rewrite digits_val_app, digits_val_zeros.
  reflexivity.
Qed.

Lemma binary_dec (l : list ascii) :
  binary l \/ exists c, In c l /\ c <> "0"%char /\ c <> "1"%char.
Proof.
  induction l as [|x l [IH|(c & Hin & H0 & H1)]].
  - left. intros c [].
  - destruct (ascii_dec x "0") as [->|H0]; [|destruct (ascii_dec x "1") as [->|H1]].
    + left. intros c [<-|Hc]; [left; reflexivity|apply IH, Hc].
    + left. intros c [<-|Hc]; [right; reflexivity|apply IH, Hc].
    + right. exists x. split; [left; reflexivity|split; assumption].
  - right. exists c. split; [right; exact Hin|split; assumption].
Qed.

(** Stripping zeros: the text is the stripped text between runs of zeros. *)
Lemma lstrip_split (c : ascii) (l : list ascii) :
  exists t, l = (repeat c t ++ Py.lstrip c l)%list.
Proof.
  induction l as [|x l [t IH]]; [exists 0%nat; reflexivity|].
  cbn [Py.lstrip]. unfold Py.ch_eqb. destruct (Ascii.eqb_spec x c) as [->|Hne].
  - exists (S t). cbn [repeat app]. f_equal. exact IH.
  - exists 0%nat. reflexivity.
Qed.

Lemma rev_repeat_ch (c : ascii) (t : nat) : rev (repeat c t) = repeat c t.
Proof.
  induction t as [|t IH]; [reflexivity|].
  cbn [repeat rev]. rewrite IH. clear IH.
  induction t as [|t IH]; [reflexivity|]. cbn [repeat app]. f_equal. exact IH.
Qed.

Lemma strip_split (c : ascii) (l : list ascii) :
  exists t u,
    l = (repeat c t ++ rev (Py.lstrip c (rev (Py.lstrip c l))) ++ repeat c u)%list.
Proof.
  destruct (lstrip_split c l) as [t Ht].
  destruct (lstrip_split c (rev (Py.lstrip c l))) as [u Hu].
  exists t, u. rewrite Ht at 1. f_equal.
  rewrite <- (rev_involutive (Py.lstrip c l)) at 1. rewrite Hu at 1.
  rewrite rev_app_distr, rev_repeat_ch. reflexivity.
Qed.

Lemma digits_val_zeros_base (b : Z) (m : nat) (a : Z) :
  (1 <= b)%Z -> Py.digits_val b a (repeat "0"%char m) = Some (a * b ^ Z.of_nat m)%Z.
Proof.
  intros Hb. revert a. induction m as [|m IH]; intros a.
  - cbn. f_equal. lia.
  - cbn [repeat Py.digits_val].
    change (Py.digit_val b "0"%char) with (if (0 <? b)%Z then Some 0%Z else None).
    destruct (Z.ltb_spec 0 b); [|lia]. rewrite IH. f_equal.
    rewrite Nat2Z.inj_succ, Z.pow_succ_r by lia. lia.
Qed.

Lemma digit_of_hex (c : ascii) :
  digit_of 16 c -> In c (Py.chars "0123456789ABCDEF").
Proof.
  intros (d & Hd & ->).
  assert (E : d = 0 \/ d = 1 \/ d = 2 \/ d = 3 \/ d = 4 \/ d = 5 \/ d = 6 \/ d = 7
              \/ d = 8 \/ d = 9 \/ d = 10 \/ d = 11 \/ d = 12 \/ d = 13 \/ d = 14
              \/ d = 15) by lia.
  repeat (destruct E as [-> | E]); try subst d; cbn; tauto.
Qed.

(** [int(s, 16)] of a text of upper-case hexadecimal digits. *)
Lemma int_base_hex (l : list ascii) :
  l <> [] -> Forall (digit_of 16) l ->
  Py.int_base (Py.str l) 16 = Py.digits_val 16 0 l.
Proof.
  intros Hne Hall. unfold Py.int_base. rewrite chars_str.
  destruct l as [|c l]; [congruence|].
  assert (Hc : In c (Py.chars "0123456789ABCDEF")).
  { apply digit_of_hex. inversion Hall; assumption. }
  assert (Hbody : forall v, option_map (Z.mul 1) v = v).
  { intros [v|]; [|reflexivity]. cbn [option_map]. f_equal. lia. }
  assert (Hx : match l with
               | x :: _ => Py.one_of "xX" x = false
               | [] => True
               end).
  { destruct l as [|x l]; [exact I|].
    assert (Hxin : In x (Py.chars "0123456789ABCDEF")).
    { apply digit_of_hex. inversion Hall as [|? ? _ H2]; inversion H2; assumption. }
    cbn in Hxin. repeat (destruct Hxin as [<-|Hxin]; [reflexivity|]). destruct Hxin. }
  assert (Hs : Py.take_sign (c :: l) = (1%Z, c :: l)).
  { cbn in Hc. repeat (destruct Hc as [<-|Hc]; [reflexivity|]). destruct Hc. }
  rewrite Hs. cbv beta iota zeta. rewrite Hbody.
  destruct l as [|x l]; cbn in Hc;
    repeat (destruct Hc as [<-|Hc];
            [first [reflexivity | cbv beta iota; rewrite Hx; reflexivity]|]);
    destruct Hc.
Qed.

(** [bin2hex] on a text of binary digits: the hexadecimal digits of the
    same number, without the zeros at both ends. *)
Lemma bin2hex_digits (s : string) (n : Z) :
  binary (Py.chars s) -> Py.digits_val 2 0 (Py.chars s) = Some n ->
  exists h v t,
    BaseCodec.bin2hex s = Ok h /\ Py.int_base h 16 = Some v
    /\ n = (v * 16 ^ Z.of_nat t)%Z.
Proof.
  intros Hbin Hn. unfold BaseCodec.bin2hex.
  destruct (pad4_length (Py.chars s)) as [n4 Hlen].
  destruct (map_groups_binary n4 (List.length (BaseCodec.pad4 (Py.chars s)))
              (BaseCodec.pad4 (Py.chars s)) Hlen ltac:(lia) (pad4_binary _ Hbin))
    as (hs & Hm & Hdig & Hval).
  cbv zeta. rewrite Hm. unfold Py.strip. rewrite chars_str, len_str.
  destruct (strip_split "0"%char hs) as (t & u & Hsplit).
  set (core := rev (Py.lstrip "0"%char (rev (Py.lstrip "0"%char hs)))) in *.
  assert (Hcore : Forall (digit_of 16) core).
  { rewrite Hsplit in Hdig. apply Forall_app in Hdig as [_ Hdig].
    apply Forall_app in Hdig as [Hdig _]. exact Hdig. }
  specialize (Hval 0%Z). rewrite pad4_value, Hn in Hval.
  rewrite Hsplit, digits_val_app, digits_val_zeros_base in Hval by lia.
  rewrite Z.mul_0_l, digits_val_app in Hval.
  destruct (Py.digits_val 16 0 core) as [v|] eqn:Hv; [|discriminate].
  rewrite digits_val_zeros_base in Hval by lia. injection Hval as Hval.
  destruct core as [|c core'] eqn:Ecore.
  - exists "0", 0%Z, 0%nat. cbn in Hv. injection Hv as <-.
    repeat split; lia.
  - exists (Py.str (c :: core')), v, u.
    split; [reflexivity|]. split; [|lia].
    rewrite int_base_hex; [exact Hv|discriminate|exact Hcore].
Qed.

(** [dec2hex] prints a number that [int(s, 16)] reads back. *)
Lemma dec2hex_digits (val nbits : Z) :
  (0 <= nbits)%Z ->
  exists h, BaseCodec.dec2hex val nbits = Ok h
            /\ Py.int_base h 16 = Some (val mod 2 ^ nbits)%Z.
Proof.
  intros Hn. unfold BaseCodec.dec2hex.
  destruct (Z.ltb_spec nbits 0) as [|_]; [lia|].
  assert (Hp : (0 < 2 ^ nbits)%Z) by (apply Z.pow_pos_nonneg; lia).
  assert (Hmod : ((val + 2 ^ nbits) mod 2 ^ nbits = val mod 2 ^ nbits)%Z).
  { rewrite <- (Z.mul_1_l (2 ^ nbits)) at 1. apply Z.mod_add. lia. }
  rewrite Hmod.
  pose proof (Z.mod_pos_bound val (2 ^ nbits) Hp) as Hb.
  exists (Py.format_X (val mod 2 ^ nbits)). split; [reflexivity|].
  unfold Py.format_X, Py.int_digits.
  destruct (Z.ltb_spec (val mod 2 ^ nbits) 0) as [|_]; [lia|].
  destruct (nat_digits_base 16 (val mod 2 ^ nbits) ltac:(lia) ltac:(lia))
    as (Hdig & Hv & Hlen).
  rewrite int_base_hex; [|intros E; rewrite E in Hlen; cbn in Hlen; lia|exact Hdig].
  rewrite Hv. f_equal; lia.
Qed.

(** ** When [fixp] raises *)

Lemma requant_mode_cases (self : Fixed) :
  (known_quant self /\ exists f, Quantizer.requant_mode self = Ok f)
  \/ (~ known_quant self /\ exists m, Quantizer.requant_mode self = Raise m).
Proof.
  unfold known_quant, Quantizer.requant_mode.
  destruct (String.eqb_spec (quant self) "floor") as [E|N1];
    [left; split; [rewrite E; cbn; tauto|eexists; reflexivity]|].
  destruct (String.eqb_spec (quant self) "round") as [E|N2];
    [left; split; [rewrite E; cbn; tauto|eexists; reflexivity]|].
  destruct (String.eqb_spec (quant self) "fix") as [E|N3];
    [left; split; [rewrite E; cbn; tauto|eexists; reflexivity]|].
  destruct (String.eqb_spec (quant self) "ceil") as [E|N4];
    [left; split; [rewrite E; cbn; tauto|eexists; reflexivity]|].
  destruct (String.eqb_spec (quant self) "rint") as [E|N5];
    [left; split; [rewrite E; cbn; tauto|eexists; reflexivity]|].
  destruct (String.eqb_spec (quant self) "none") as [E|N6];
    [left; split; [rewrite E; cbn; tauto|eexists; reflexivity]|].
  right. split; [|eexists; reflexivity].
  cbn [In]. intros H. repeat (destruct H as [H|H]; [congruence|]). exact H.
Qed.



(** ** Binary texts of any integer *)




Lemma binary_value (l : list ascii) :
  binary l -> forall acc, exists n, Py.digits_val 2 acc l = Some n.
Proof.
  induction l as [|c l IH]; intros Hb acc; [exists acc; reflexivity|].
  cbn [Py.digits_val].
  assert (Hc : c = "0"%char \/ c = "1"%char) by (apply Hb; left; reflexivity).
  assert (Hl : binary l) by (intros x Hx; apply Hb; right; exact Hx).
  destruct Hc as [-> | ->]; apply IH, Hl.
Qed.

Lemma bin2hex_returns (s : string) :
  binary (Py.chars s) -> exists h, BaseCodec.bin2hex s = Ok h.
Proof.
  intros Hb. destruct (binary_value _ Hb 0%Z) as [n Hn].
  destruct (bin2hex_digits s n Hb Hn) as (h & _ & _ & Hh & _).
  exists h. exact Hh.
Qed.

(** X1: [bin2hex] (lines 37-76) on a text of binary digits returns the
    hexadecimal digits of the same number without the zeros at both ends:
    read in base 16, the result times a power of sixteen is the number
    the binary text denotes, and it is that number itself unless it is a
    multiple of sixteen. *)
Theorem bin2hex_value (s : string) (n : Z) :
  binary (Py.chars s) -> Py.digits_val 2 0 (Py.chars s) = Some n ->
  exists h v t,
    BaseCodec.bin2hex s = Ok h /\ Py.int_base h 16 = Some v
    /\ n = (v * 16 ^ Z.of_nat t)%Z
    /\ (n mod 16 <> 0 -> v = n)%Z.
Proof.
  intros Hb Hn. destruct (bin2hex_digits s n Hb Hn) as (h & v & t & Hh & Hv & E).
  exists h, v, t. repeat split; try assumption.
  intros Hm. destruct t as [|t].
  - rewrite E. change (Z.of_nat 0) with 0%Z. rewrite Z.pow_0_r. lia.
  - exfalso. apply Hm. rewrite E, Nat2Z.inj_succ, Z.pow_succ_r by lia.
    replace (v * (16 * 16 ^ Z.of_nat t))%Z with (v * 16 ^ Z.of_nat t * 16)%Z by lia.
    apply Z.mod_mul. lia.
Qed.

(** The text ["10111010"] is ["BA"]; ["00010000"] loses its last digit. *)
Lemma bin2hex_value_witness :
  (exists h v t,
      BaseCodec.bin2hex "10111010" = Ok h /\ Py.int_base h 16 = Some v
      /\ 186%Z = (v * 16 ^ Z.of_nat t)%Z /\ (186 mod 16 <> 0 -> v = 186)%Z)
  /\ BaseCodec.bin2hex "10111010" = Ok "BA"
  /\ BaseCodec.bin2hex "00010000" = Ok "1".
Proof.
  split; [|split; reflexivity].
  apply (bin2hex_value "10111010" 186).
  - intros c Hc. cbn in Hc.
    repeat (destruct Hc as [<-|Hc]; [first [left; reflexivity|right; reflexivity]|]).
    destruct Hc.
  - reflexivity.
Defined.

(** X2: [bin2hex] raises [KeyError] exactly when its argument holds a
    character other than ['0'] and ['1'] (line 70, the lookup in
    [wmap]). *)
Theorem bin2hex_key_error (s : string) :
  BaseCodec.bin2hex s = Raise "KeyError"
  <-> exists c, In c (Py.chars s) /\ c <> "0"%char /\ c <> "1"%char.
Proof.
  split.
  - intros Hr. destruct (binary_dec (Py.chars s)) as [Hb|Hex]; [|exact Hex].
    destruct (bin2hex_returns s Hb) as [h Hh]. congruence.
  - intros (c & Hin & H0 & H1). unfold BaseCodec.bin2hex.
    destruct (pad4_length (Py.chars s)) as [n4 Hlen]. cbv zeta.
    rewrite (map_groups_other n4 (List.length (BaseCodec.pad4 (Py.chars s)))
               (BaseCodec.pad4 (Py.chars s)) c Hlen ltac:(lia));
      try assumption; [reflexivity|].
    unfold BaseCodec.pad4. apply in_or_app. right. exact Hin.
Qed.

(** The text ["0121"] holds a ['2']. *)
Lemma bin2hex_key_error_witness : BaseCodec.bin2hex "0121" = Raise "KeyError".
Proof.
  apply (proj2 (bin2hex_key_error "0121")). exists "2"%char.
  split; [cbn; tauto|split; discriminate].
Defined.

(** X3: [dec2hex(val, nbits)] (lines 79-96) writes the [nbits]-bit two's
    complement code of [val]: for [1 <= nbits <= 63] and
    [-2^(nbits-1) <= val < 2^(nbits-1)] the text read in base 16 is a
    number [u] below [2^nbits] that is [val] for [u < 2^(nbits-1)] and
    [val + 2^nbits] otherwise. *)
Theorem dec2hex_twos_complement (val nbits : Z) :
  (1 <= nbits <= 63)%Z ->
  (- 2 ^ (nbits - 1) <= val < 2 ^ (nbits - 1))%Z ->
  exists h u,
    BaseCodec.dec2hex val nbits = Ok h /\ Py.int_base h 16 = Some u
    /\ (0 <= u < 2 ^ nbits)%Z
    /\ val = (if (u <? 2 ^ (nbits - 1))%Z then u else u - 2 ^ nbits)%Z.
Proof.
  intros Hn Hv.
  destruct (dec2hex_digits val nbits ltac:(lia)) as (h & Hh & Hu).
  exists h, (val mod 2 ^ nbits)%Z.
  assert (Hp : (2 ^ nbits = 2 * 2 ^ (nbits - 1))%Z).
  { rewrite <- Z.pow_succ_r by lia. f_equal. lia. }
  assert (Hpos : (0 < 2 ^ (nbits - 1))%Z) by (apply Z.pow_pos_nonneg; lia).
  split; [exact Hh|]. split; [exact Hu|]. split; [apply Z.mod_pos_bound; lia|].
  destruct (Z.lt_ge_cases val 0) as [Hneg|Hnn].
  - assert (E : (val mod 2 ^ nbits = val + 2 ^ nbits)%Z).
    { symmetry. apply (Z.mod_unique _ _ (-1)); lia. }
    rewrite E. destruct (Z.ltb_spec (val + 2 ^ nbits) (2 ^ (nbits - 1))); lia.
  - rewrite Z.mod_small by lia.
    destruct (Z.ltb_spec val (2 ^ (nbits - 1))); lia.
Qed.

(** [dec2hex(-70, 8)] is ["BA"], the code [186 = 256 - 70]. *)
Lemma dec2hex_twos_complement_witness :
  (exists h u,
      BaseCodec.dec2hex (-70) 8 = Ok h /\ Py.int_base h 16 = Some u
      /\ (0 <= u < 2 ^ 8)%Z
      /\ (-70)%Z = (if (u <? 2 ^ (8 - 1))%Z then u else u - 2 ^ 8)%Z)
  /\ BaseCodec.dec2hex (-70) 8 = Ok "BA".
Proof.
  split; [|reflexivity].
  apply (dec2hex_twos_complement (-70) 8); cbn; lia.
Defined.







(** ** [frmt2float] on any text *)

Lemma text_format_legal (fmt : string) :
  text_format fmt ->
  String.eqb fmt "float" = false
  /\ Fix.frmt_legal fmt = Some (legal_char fmt)
  /\ legal_char fmt ","%char = true /\ legal_char fmt "."%char = true.
Proof.
  unfold text_format. cbn [In].
  intros [<-|[<-|[<-|[<-|[]]]]]; repeat split; reflexivity.
Qed.

Lemma other_format_legal (fmt : string) :
  ~ text_format fmt -> Fix.frmt_legal fmt = None.
Proof.
  unfold text_format, Fix.frmt_legal. cbn [In]. intros H.
  destruct (String.eqb_spec fmt "bin") as [->|_]; [exfalso; apply H; tauto|].
  destruct (String.eqb_spec fmt "csd") as [->|_]; [exfalso; apply H; tauto|].
  destruct (String.eqb_spec fmt "dec") as [->|_]; [exfalso; apply H; tauto|].
  destruct (String.eqb_spec fmt "hex") as [->|_]; [exfalso; apply H; tauto|].
  reflexivity.
Qed.

(** The conversion of a text that is not empty depends on the text only
    through its legal characters. *)
Lemma frmt2float_nonempty (self : Fixed) (data_old : option Q) (s : string)
                          (frmt_arg : option string) :
  s <> EmptyString ->
  Fix.frmt2float self data_old (PStr s) frmt_arg
  = Fix.frmt2float_convert self data_old (PStr s) frmt_arg.
Proof. destruct s; [congruence|reflexivity]. Qed.




(** X8: with a format name other than ['float'], ['dec'], ['bin'],
    ['hex'] and ['csd'], [frmt2float] raises [KeyError] (line 677, the
    lookup in [FRMT_REGEX]) for every argument but the empty text; the
    branch that logs an unknown format (line 746) is never reached. *)
Theorem frmt2float_unknown_format (self : Fixed) (data_old : option Q) (y : pyval)
                                  (frmt_arg : option string) :
  format_of self frmt_arg <> "float" ->
  ~ text_format (format_of self frmt_arg) ->
  y <> PStr EmptyString ->
  Fix.frmt2float self data_old y frmt_arg = (Raise "KeyError", self, []).
Proof.
  intros Hfl Hf Hy.
  assert (E : Fix.frmt2float self data_old y frmt_arg
              = Fix.frmt2float_convert self data_old y frmt_arg).
  { destruct y as [q|[|c s]]; [reflexivity|congruence|reflexivity]. }
  rewrite E. unfold Fix.frmt2float_convert. fold (format_of self frmt_arg). cbv zeta.
  destruct (String.eqb_spec (format_of self frmt_arg) "float") as [|_]; [contradiction|].
  rewrite (other_format_legal _ Hf). reflexivity.
Qed.

Lemma frmt2float_unknown_format_witness :
  Fix.frmt2float fixed_a None (PNum 1) (Some "int") = (Raise "KeyError", fixed_a, []).
Proof.
  apply (frmt2float_unknown_format fixed_a None (PNum 1) (Some "int")).
  - vm_compute. discriminate.
  - unfold text_format. vm_compute. intros H.
    repeat (destruct H as [H|H]; [discriminate|]). exact H.
  - discriminate.
Defined.

(** ** The characters [frmt2float] reads *)

Lemma keep_keep (P : ascii -> bool) (s : string) :
  Py.keep P (Py.keep P s) = Py.keep P s.
Proof.
  unfold Py.keep. rewrite chars_str. f_equal.
  induction (Py.chars s) as [|c l IH]; [reflexivity|].
  cbn [List.filter]. destruct (P c) eqn:E; [|exact IH].
  cbn [List.filter]. rewrite E, IH. reflexivity.
Qed.

Lemma keep_nonempty (P : ascii -> bool) (s : string) :
  Py.keep P s <> EmptyString -> s <> EmptyString.
Proof. intros H ->. apply H. reflexivity. Qed.

(** The legal characters of a text decide the conversion. *)
Lemma frmt2float_convert_keep (self : Fixed) (data_old : option Q) (s t : string)
                              (frmt_arg : option string) :
  text_format (format_of self frmt_arg) ->
  Py.keep (legal_char (format_of self frmt_arg)) s
  = Py.keep (legal_char (format_of self frmt_arg)) t ->
  Fix.frmt2float_convert self data_old (PStr s) frmt_arg
  = Fix.frmt2float_convert self data_old (PStr t) frmt_arg.
Proof.
  intros Hf E. destruct (text_format_legal _ Hf) as (Hfl & Hleg & _).
  unfold Fix.frmt2float_convert. fold (format_of self frmt_arg).
  cbv zeta. rewrite Hfl, Hleg. cbn [qstr]. rewrite E. reflexivity.
Qed.

(** X9: in the four text formats [frmt2float] drops the characters
    outside the class of the format before it reads the text (line 677):
    a text with at least one legal character is converted like the text
    of its legal characters alone. *)
Theorem frmt2float_ignores_illegal (self : Fixed) (data_old : option Q) (s : string)
                                   (frmt_arg : option string) :
  text_format (format_of self frmt_arg) ->
  Py.keep (legal_char (format_of self frmt_arg)) s <> EmptyString ->
  Fix.frmt2float self data_old (PStr s) frmt_arg
  = Fix.frmt2float self data_old
      (PStr (Py.keep (legal_char (format_of self frmt_arg)) s)) frmt_arg.
Proof.
  intros Hf Hne.
  rewrite (frmt2float_nonempty _ _ s) by (apply (keep_nonempty _ _ Hne)).
  rewrite (frmt2float_nonempty _ _ (Py.keep _ s)) by exact Hne.
  apply frmt2float_convert_keep; [exact Hf|]. symmetry. apply keep_keep.
Qed.

(** The text ["1x0.1 1"] is read as ["10.11"] in the format ['bin']. *)
Lemma frmt2float_ignores_illegal_witness :
  Py.keep (legal_char (format_of fixed_bin None)) "1x0.1 1" = "10.11"
  /\ Fix.frmt2float fixed_bin None (PStr "1x0.1 1") None
     = Fix.frmt2float fixed_bin None (PStr "10.11") None.
Proof.
  split; [reflexivity|].
  apply (frmt2float_ignores_illegal fixed_bin None "1x0.1 1" None).
  - unfold text_format. cbn. tauto.
  - discriminate.
Defined.

(** X10: a text that is not empty and holds no legal character of the
    format makes [frmt2float] return the last good value [fb.data_old],
    or [0] when there is none, with one warning and the object untouched
    (lines 698-703). *)
Theorem frmt2float_no_valid_character (self : Fixed) (data_old : option Q) (s : string)
                                      (frmt_arg : option string) :
  text_format (format_of self frmt_arg) ->
  s <> EmptyString ->
  (forall c, In c (Py.chars s) -> legal_char (format_of self frmt_arg) c = false) ->
  exists w,
    Fix.frmt2float self data_old (PStr s) frmt_arg
    = (Ok (Some (match data_old with Some d => d | None => 0%Q end)), self,
       [(WARNING, w)]).
Proof.
  intros Hf Hne Hill. destruct (text_format_legal _ Hf) as (Hfl & Hleg & _).
  rewrite frmt2float_nonempty by exact Hne.
  unfold Fix.frmt2float_convert. fold (format_of self frmt_arg).
  cbv zeta. rewrite Hfl, Hleg. cbn [qstr].
  rewrite (proj2 (keep_none (legal_char (format_of self frmt_arg)) s) Hill).
  eexists. unfold Fix.or_fallback. destruct data_old; reflexivity.
Qed.

Lemma frmt2float_no_valid_character_witness :
  exists w,
    Fix.frmt2float fixed_dec (Some (3 # 4)) (PStr "abc") None
    = (Ok (Some (3 # 4)), fixed_dec, [(WARNING, w)]).
Proof.
  apply (frmt2float_no_valid_character fixed_dec (Some (3 # 4)) "abc" None).
  - unfold text_format. cbn. tauto.
  - discriminate.
  - intros c Hc. cbn in Hc.
    repeat (destruct Hc as [<-|Hc]; [reflexivity|]). destruct Hc.
Defined.

(** ** The decimal comma *)

Lemma replace_char_map (a b : ascii) (l : list ascii) :
  flat_map (fun c => if Py.ch_eqb c a then Py.chars (String b EmptyString) else [c]) l
  = map (fun c => if Py.ch_eqb c a then b else c) l.
Proof.
  induction l as [|c l IH]; [reflexivity|].
  cbn [flat_map map]. rewrite IH. destruct (Py.ch_eqb c a); reflexivity.
Qed.

Lemma replace_char (a b : ascii) (s : string) :
  Py.replace a (String b EmptyString) s
  = Py.str (map (fun c => if Py.ch_eqb c a then b else c) (Py.chars s)).
Proof. unfold Py.replace. rewrite replace_char_map. reflexivity. Qed.

Lemma keep_replace_char (P : ascii -> bool) (a b : ascii) (s : string) :
  P a = true -> P b = true ->
  Py.keep P (Py.replace a (String b EmptyString) s)
  = Py.replace a (String b EmptyString) (Py.keep P s).
Proof.
  intros Ha Hb. rewrite !replace_char. unfold Py.keep. rewrite !chars_str. f_equal.
  induction (Py.chars s) as [|c l IH]; [reflexivity|].
  cbn [map List.filter]. unfold Py.ch_eqb in *.
  destruct (Ascii.eqb_spec c a) as [->|Hne].
  - rewrite Hb, Ha. cbn [map]. rewrite Ascii.eqb_refl, IH. reflexivity.
  - destruct (P c) eqn:E; [|exact IH].
    cbn [map]. destruct (Ascii.eqb_spec c a); [contradiction|]. rewrite IH. reflexivity.
Qed.

Lemma replace_char_twice (a b : ascii) (s : string) :
  a <> b ->
  Py.replace a (String b EmptyString) (Py.replace a (String b EmptyString) s)
  = Py.replace a (String b EmptyString) s.
Proof.
  intros Hab. rewrite !replace_char, chars_str. f_equal. rewrite map_map.
  apply map_ext. intros c. unfold Py.ch_eqb.
  destruct (Ascii.eqb_spec c a) as [->|Hne].
  - destruct (Ascii.eqb_spec b a); [congruence|reflexivity].
  - destruct (Ascii.eqb_spec c a); [contradiction|reflexivity].
Qed.

Lemma replace_char_len (a b : ascii) (s : string) :
  Py.len (Py.replace a (String b EmptyString) s) = Py.len s.
Proof.
  rewrite replace_char, len_str, length_map. unfold Py.len, Py.chars.
  f_equal. induction s as [|c s IH]; [reflexivity|]. cbn. f_equal. exact IH.
Qed.

Lemma split_places_comma (v : string) :
  Fix.split_places (Py.replace ","%char "." v) = Fix.split_places v.
Proof.
  unfold Fix.split_places. rewrite (replace_char_twice ","%char "."%char v) by discriminate.
  reflexivity.
Qed.

(** X11: in the four text formats a comma is read as the radix point
    (line 680): [frmt2float] converts a text and the text with every
    [','] replaced by ['.'] in the same way. *)
Theorem frmt2float_decimal_comma (self : Fixed) (data_old : option Q) (s : string)
                                 (frmt_arg : option string) :
  text_format (format_of self frmt_arg) ->
  Fix.frmt2float self data_old (PStr (Py.replace ","%char "." s)) frmt_arg
  = Fix.frmt2float self data_old (PStr s) frmt_arg.
Proof.
  intros Hf. destruct (text_format_legal _ Hf) as (Hfl & Hleg & Hc & Hp).
  destruct s as [|c s]; [reflexivity|].
  rewrite (frmt2float_nonempty _ _ (String c s)) by discriminate.
  rewrite frmt2float_nonempty.
  2:{ intros E. apply (f_equal Py.len) in E. rewrite replace_char_len in E.
      unfold Py.len in E. cbn in E. lia. }
  unfold Fix.frmt2float_convert. fold (format_of self frmt_arg).
  cbv zeta. rewrite Hfl, Hleg. cbn [qstr].
  rewrite (keep_replace_char _ ","%char "."%char (String c s) Hc Hp).
  rewrite replace_char_len, split_places_comma. reflexivity.
Qed.

Lemma frmt2float_decimal_comma_witness :
  Py.replace ","%char "." "0,75" = "0.75"
  /\ Fix.frmt2float fixed_dec None (PStr "0.75") None
     = Fix.frmt2float fixed_dec None (PStr "0,75") None.
Proof.
  split; [reflexivity|].
  apply (frmt2float_decimal_comma fixed_dec None "0,75" None).
  unfold text_format. cbn. tauto.
Defined.

(** ** One scalar call of [fixp], step by step *)

Lemma fixp_scalar (self : Fixed) (y : Q) (scaling : string) :
  Fix.fixp self (PNum y) scaling
  = match Quantizer.fixp_num self (Scalar y) scaling with
    | (Ok r, self') => (Ok (hd 0%Q (elems r)), self', [])
    | (Raise m, self') => (Raise m, self', [])
    end.
Proof. reflexivity. Qed.

Lemma fixp_num_scalar (self : Fixed) (y : Q) (scaling : string) (f : Q -> Q) :
  Quantizer.requant_mode self = Ok f ->
  Quantizer.fixp_num self (Scalar y) scaling
  = let yq := requantized self scaling f y in
    if String.eqb (ovfl self) "none" then
      (Ok (Scalar (Quantizer.postscale self scaling yq)), Quantizer.set_flags self [0%Z])
    else if String.eqb (ovfl self) "sat" then
      (Ok (Scalar (Quantizer.postscale self scaling (Quantizer.saturate self yq))),
       counted self yq)
    else if String.eqb (ovfl self) "wrap" then
      (Ok (Scalar (Quantizer.postscale self scaling (Quantizer.wrap self yq))),
       counted self yq)
    else (Raise ("Unknown overflow type " ++ ovfl self), counted self yq).
Proof.
  intros Hf. unfold Quantizer.fixp_num. cbv zeta.
  unfold Quantizer.requant_all.
  change (Quantizer.requant_mode (Quantizer.set_flags self (map (fun _ => 0%Z) (elems (Scalar y)))))
    with (Quantizer.requant_mode self).
  rewrite Hf. reflexivity.
Qed.

Lemma fixp_numeric (self : Fixed) (y : Q) (scaling : string) (f : Q -> Q) :
  Quantizer.requant_mode self = Ok f ->
  Fix.fixp self (PNum y) scaling
  = let yq := requantized self scaling f y in
    if String.eqb (ovfl self) "none" then
      (Ok (Quantizer.postscale self scaling yq), Quantizer.set_flags self [0%Z], [])
    else if String.eqb (ovfl self) "sat" then
      (Ok (Quantizer.postscale self scaling (Quantizer.saturate self yq)),
       counted self yq, [])
    else if String.eqb (ovfl self) "wrap" then
      (Ok (Quantizer.postscale self scaling (Quantizer.wrap self yq)),
       counted self yq, [])
    else (Raise ("Unknown overflow type " ++ ovfl self), counted self yq, []).
Proof.
  intros Hf. rewrite fixp_scalar, (fixp_num_scalar self y scaling f Hf). cbv zeta.
  destruct (String.eqb (ovfl self) "none"); [reflexivity|].
  destruct (String.eqb (ovfl self) "sat"); [reflexivity|].
  destruct (String.eqb (ovfl self) "wrap"); reflexivity.
Qed.

Lemma fixp_raise_mode (self : Fixed) (y : Q) (scaling : string) (m : string) :
  Quantizer.requant_mode self = Raise m ->
  Fix.fixp self (PNum y) scaling = (Raise m, Quantizer.set_flags self [0%Z], []).
Proof.
  intros Hf. rewrite fixp_scalar. unfold Quantizer.fixp_num. cbv zeta.
  unfold Quantizer.requant_all.
  change (Quantizer.requant_mode (Quantizer.set_flags self (map (fun _ => 0%Z) (elems (Scalar y)))))
    with (Quantizer.requant_mode self).
  rewrite Hf. reflexivity.
Qed.


(** ** How far the rounding modes move a value *)

Section RoundingBounds.

Lemma floor_bounds (x : Q) : (Np.floor x <= x /\ x < Np.floor x + 1)%Q.
Proof.
  unfold Np.floor. split; [apply Qfloor_le|].
  pose proof (Qlt_floor x) as H. rewrite inject_Z_plus in H. exact H.
Qed.

Lemma ceil_bounds (x : Q) : (Np.ceil x - 1 < x /\ x <= Np.ceil x)%Q.
Proof.
  unfold Np.ceil. split; [|apply Qle_ceiling].
  pose proof (Qceiling_lt x) as H.
  unfold Z.sub in H. rewrite inject_Z_plus in H. exact H.
Qed.


Lemma fix_bounds (x : Q) :
  ((0 <= x -> 0 <= Np.fix_ x /\ Np.fix_ x <= x /\ x < Np.fix_ x + 1)
   /\ (x < 0 -> x <= Np.fix_ x /\ Np.fix_ x <= 0 /\ Np.fix_ x - 1 < x))%Q.
Proof.
  unfold Np.fix_. split; intros Hx.
  - destruct (Qle_bool 0 x) eqn:E.
    + pose proof (floor_bounds x) as [H1 H2]. split; [|split; assumption].
      unfold Np.floor. change 0%Q with (inject_Z 0).
      apply (proj1 (inj_le 0 (Qfloor x))).
      apply Qfloor_resp_le in Hx. exact Hx.
    + exfalso. apply Qle_bool_iff in Hx. congruence.
  - destruct (Qle_bool 0 x) eqn:E.
    + apply Qle_bool_iff in E. lra.
    + pose proof (ceil_bounds x) as [H1 H2]. split; [assumption|split; [|assumption]].
      unfold Np.ceil. change 0%Q with (inject_Z 0).
      apply (proj1 (inj_le (Qceiling x) 0)).
      assert (Hx' : (x <= 0)%Q) by lra.
      apply Qceiling_resp_le in Hx'. exact Hx'.
Qed.

End RoundingBounds.

Lemma derived_LSB_pos (self : Fixed) : derived self -> (0 < LSB self)%Q.
Proof. intros (_ & _ & HL & _). rewrite HL. apply pow2_pos. Qed.








(** ** Monotonicity *)

Section Monotone.

Lemma floor_mono (x y : Q) : (x <= y)%Q -> (Np.floor x <= Np.floor y)%Q.
Proof.
  intros H. unfold Np.floor. apply (proj1 (inj_le _ _)). apply Qfloor_resp_le, H.
Qed.

Lemma ceil_mono (x y : Q) : (x <= y)%Q -> (Np.ceil x <= Np.ceil y)%Q.
Proof.
  intros H. unfold Np.ceil. apply (proj1 (inj_le _ _)). apply Qceiling_resp_le, H.
Qed.

Lemma fix_mono (x y : Q) : (x <= y)%Q -> (Np.fix_ x <= Np.fix_ y)%Q.
Proof.
  intros H. destruct (fix_bounds x) as [Hxp Hxn], (fix_bounds y) as [Hyp Hyn].
  unfold Np.fix_ in *.
  destruct (Qle_bool 0 x) eqn:Ex, (Qle_bool 0 y) eqn:Ey.
  - apply floor_mono, H.
  - apply Qle_bool_iff in Ex.
    assert (Hy : (y < 0)%Q).
    { apply Qnot_le_lt. intros C. apply Qle_bool_iff in C. congruence. }
    lra.
  - assert (Hx : (x < 0)%Q).
    { apply Qnot_le_lt. intros C. apply Qle_bool_iff in C. congruence. }
    apply Qle_bool_iff in Ey. specialize (Hxn Hx). specialize (Hyp Ey). lra.
  - apply ceil_mono, H.
Qed.

Lemma rint_z_range (x : Q) : (Qfloor x <= Np.rint_z x <= Qfloor x + 1)%Z.
Proof.
  unfold Np.rint_z.
  destruct (x - inject_Z (Qfloor x) ?= 1 # 2)%Q; [destruct (Z.even (Qfloor x))| |]; lia.
Qed.

Lemma rint_mono (x y : Q) : (x <= y)%Q -> (Np.rint x <= Np.rint y)%Q.
Proof.
  intros H. unfold Np.rint. apply (proj1 (inj_le _ _)).
  pose proof (Qfloor_resp_le x y H) as Hf.
  destruct (Z.lt_ge_cases (Qfloor x) (Qfloor y)) as [Hlt|Hge].
  - pose proof (rint_z_range x). pose proof (rint_z_range y). lia.
  - assert (E : Qfloor x = Qfloor y) by lia.
    unfold Np.rint_z. rewrite E.
    destruct (Qcompare_spec (x - inject_Z (Qfloor y)) (1 # 2)) as [E1|L1|G1];
      destruct (Qcompare_spec (y - inject_Z (Qfloor y)) (1 # 2)) as [E2|L2|G2];
      try (destruct (Z.even (Qfloor y))); try lia; exfalso; lra.
Qed.

Lemma requant_mode_mono (self : Fixed) (f : Q -> Q) :
  Quantizer.requant_mode self = Ok f ->
  forall x y, (x <= y)%Q -> (f x <= f y)%Q.
Proof.
  unfold Quantizer.requant_mode. intros Hf x y Hxy.
  destruct (String.eqb (quant self) "floor"); [injection Hf as <-; apply floor_mono, Hxy|].
  destruct (String.eqb (quant self) "round"); [injection Hf as <-; apply rint_mono, Hxy|].
  destruct (String.eqb (quant self) "fix"); [injection Hf as <-; apply fix_mono, Hxy|].
  destruct (String.eqb (quant self) "ceil"); [injection Hf as <-; apply ceil_mono, Hxy|].
  destruct (String.eqb (quant self) "rint"); [injection Hf as <-; apply rint_mono, Hxy|].
  destruct (String.eqb (quant self) "none"); [injection Hf as <-; exact Hxy|].
  discriminate.
Qed.

Lemma saturate_mono (self : Fixed) (a b : Q) :
  (MIN self <= MAX self)%Q -> (a <= b)%Q ->
  (Quantizer.saturate self a <= Quantizer.saturate self b)%Q.
Proof.
  intros Hord Hab. unfold Quantizer.saturate, Quantizer.over_pos, Quantizer.over_neg.
  destruct (Np.ltb a (MIN self)) eqn:Na, (Np.ltb b (MIN self)) eqn:Nb,
    (Np.geb a (MAX self)) eqn:Pa, (Np.geb b (MAX self)) eqn:Pb;
    repeat match goal with
      | H : Np.ltb _ _ = true |- _ => apply ltb_lt in H
      | H : Np.ltb _ _ = false |- _ => apply ltb_ge in H
      | H : Np.geb _ _ = true |- _ => apply geb_ge in H
      | H : Np.geb _ _ = false |- _ => apply geb_lt in H
      end; lra.
Qed.

Lemma requantized_mono (self : Fixed) (f : Q -> Q) (y1 y2 : Q) :
  (0 < LSB self)%Q -> (0 <= scale self)%Q ->
  Quantizer.requant_mode self = Ok f -> (y1 <= y2)%Q ->
  (requantized self "mult" f y1 <= requantized self "mult" f y2)%Q.
Proof.
  intros HL Hs Hf Hy. unfold requantized.
  apply Qmult_le_compat_r; [|lra].
  apply (requant_mode_mono self f Hf).
  unfold Quantizer.prescale. cbn [is_mult String.eqb Ascii.eqb Bool.eqb].
  apply Qmult_le_compat_r; [|exact Hs].
  unfold Qdiv. apply Qmult_le_compat_r; [exact Hy|].
  apply Qlt_le_weak, Qinv_lt_0_compat, HL.
Qed.

End Monotone.

(** X15: without overflow handling or with saturation, [fixp] is
    monotone in its argument for every rounding mode, when [scale] is
    not negative: [y1 <= y2] gives [fixp(y1) <= fixp(y2)]. *)
Theorem fixp_monotone (self s1 s2 : Fixed) (y1 y2 r1 r2 : Q) (l1 l2 : log) :
  derived self -> (0 <= W self)%Z -> (0 <= scale self)%Q ->
  ovfl self = "none" \/ ovfl self = "sat" ->
  (y1 <= y2)%Q ->
  Fix.fixp self (PNum y1) "mult" = (Ok r1, s1, l1) ->
  Fix.fixp self (PNum y2) "mult" = (Ok r2, s2, l2) ->
  (r1 <= r2)%Q.
Proof.
  intros Hd HW Hs Hov Hy H1 H2.
  pose proof (derived_LSB_pos self Hd) as HL.
  destruct (Quantizer.requant_mode self) as [f|m] eqn:Hf;
    [|rewrite (fixp_raise_mode self y1 "mult" m Hf) in H1; discriminate].
  rewrite (fixp_numeric self y1 "mult" f Hf) in H1.
  rewrite (fixp_numeric self y2 "mult" f Hf) in H2. cbv zeta in H1, H2.
  pose proof (requantized_mono self f y1 y2 HL Hs Hf Hy) as Hq.
  unfold Quantizer.postscale in H1, H2. cbn [is_div String.eqb Ascii.eqb Bool.eqb] in H1, H2.
  destruct Hov as [E|E]; rewrite E in H1, H2;
    cbn [String.eqb Ascii.eqb Bool.eqb] in H1, H2;
    injection H1 as <- _; injection H2 as <- _; [exact Hq|].
  apply saturate_mono; [apply (bounds_ordered self Hd HW)|exact Hq].
Qed.

Lemma fixp_monotone_witness :
  Fix.fixp fixed_a (PNum (- (11 # 10))) "mult" = (Ok (- (70) # 64), fixed_a, [])
  /\ value_of (Fix.fixp fixed_a (PNum (25 # 10)) "mult") = Ok (127 # 64)
  /\ (- (70) # 64 <= 127 # 64)%Q.
Proof.
  assert (H1 : Fix.fixp fixed_a (PNum (- (11 # 10))) "mult"
               = (Ok (- (70) # 64), fixed_a, [])) by (vm_compute; reflexivity).
  assert (H2 : Fix.fixp fixed_a (PNum (25 # 10)) "mult"
               = (Ok (127 # 64), object_of (Fix.fixp fixed_a (PNum (25 # 10)) "mult"), []))
    by (vm_compute; reflexivity).
  split; [exact H1|]. split; [rewrite H2; reflexivity|].
  apply (fixp_monotone fixed_a fixed_a _ (- (11 # 10)) (25 # 10) _ _ [] []
           ltac:(apply (init_configured q_obj_a); vm_compute; reflexivity)
           ltac:(cbn; lia) ltac:(cbn; lra) ltac:(right; reflexivity)
           ltac:(lra) H1 H2).
Defined.

(** ** Saturated values are fixed points *)

Lemma saturate_multiple (self : Fixed) (j : Z) :
  derived self -> (0 <= WI self + WF self)%Z ->
  exists k, (Quantizer.saturate self (inject_Z j * LSB self) == inject_Z k * LSB self)%Q.
Proof.
  intros Hd Hw. destruct (derived_scaled self Hd Hw) as (_ & _ & _ & Hmax & Hmin).
  unfold Quantizer.saturate.
  destruct (Quantizer.over_neg self _); [eexists; exact Hmin|].
  destruct (Quantizer.over_pos self _); [eexists; exact Hmax|].
  exists j. reflexivity.
Qed.

(** X16: a value that [fixp] returned under saturation is a fixed point:
    with [scale = 1] and a rounding mode, quantising the result again
    returns it unchanged. *)
Theorem fixp_sat_idempotent (self self1 : Fixed) (y r1 : Q) (lg1 : log) :
  derived self -> (0 <= WI self + WF self)%Z -> (scale self == 1)%Q ->
  quant self <> "none" -> ovfl self = "sat" ->
  Fix.fixp self (PNum y) "mult" = (Ok r1, self1, lg1) ->
  exists r2 self2 lg2,
    Fix.fixp self1 (PNum r1) "mult" = (Ok r2, self2, lg2) /\ (r2 == r1)%Q.
Proof.
  intros Hd Hw Hs Hqn Hov Hfix.
  pose proof Hd as (Hwf & HW & _).
  destruct (Quantizer.requant_mode self) as [f|m] eqn:Hf;
    [|rewrite (fixp_raise_mode self y "mult" m Hf) in Hfix; discriminate].
  assert (Hkq : known_quant self).
  { destruct (requant_mode_cases self) as [[Hk _]|[_ [m Hm]]]; [exact Hk|congruence]. }
  rewrite (fixp_numeric self y "mult" f Hf) in Hfix. cbv zeta in Hfix.
  rewrite Hov in Hfix. cbn [String.eqb Ascii.eqb Bool.eqb] in Hfix.
  unfold Quantizer.postscale in Hfix. cbn [is_div String.eqb Ascii.eqb Bool.eqb] in Hfix.
  injection Hfix as <- <- _.
  destruct (requant_mode_integer self f (Quantizer.prescale self "mult" y) Hqn Hf)
    as [j Hj].
  unfold requantized. rewrite Hj.
  destruct (saturate_multiple self j Hd Hw) as [k Hk].
  assert (Hin : in_range self (Quantizer.saturate self (inject_Z j * LSB self))).
  { apply saturate_in_range, (bounds_ordered self Hd). lia. }
  pose proof (range_integer self _ k Hd Hw Hk Hin) as Hrange.
  set (r1 := Quantizer.saturate self (inject_Z j * LSB self)) in *.
  destruct (fixp_representable (counted self (inject_Z j * LSB self)) r1 k "mult")
    as (q & lg & Hq & Hv); try assumption.
  - unfold known_ovfl. change (ovfl (counted self (inject_Z j * LSB self))) with (ovfl self).
    rewrite Hov. cbn. tauto.
  - exists q, (snd (Quantizer.fixp_num (counted self (inject_Z j * LSB self)) (Scalar r1) "mult")), lg.
    split; [exact Hq|]. rewrite Hv, Hk. reflexivity.
Qed.

Lemma fixp_sat_idempotent_witness :
  Fix.fixp fixed_a (PNum (- (11 # 10))) "mult" = (Ok (- (70) # 64), fixed_a, [])
  /\ exists r2 self2 lg2,
       Fix.fixp fixed_a (PNum (- (70) # 64)) "mult" = (Ok r2, self2, lg2)
       /\ (r2 == - (70) # 64)%Q.
Proof.
  assert (H1 : Fix.fixp fixed_a (PNum (- (11 # 10))) "mult"
               = (Ok (- (70) # 64), fixed_a, [])) by (vm_compute; reflexivity).
  split; [exact H1|].
  apply (fixp_sat_idempotent fixed_a fixed_a (- (11 # 10)) (- (70) # 64) []);
    [apply (init_configured q_obj_a); vm_compute; reflexivity
    |cbn; lia|reflexivity|discriminate|reflexivity|exact H1].
Defined.

(** ** The largest value counts as an overflow *)



(** ** A batch and its elements *)










